(** * comparador.js: the benchmark runner, embedded and verified

    A shallow embedding of [BenchmarkRunner] (src/comparador.js): the file
    statistics of [processFileContent], the byte formatter [formatBytes], the
    run protocol of [runBenchmark] with Node's module cache, and the
    comparative summary of [showSummary].

    Conventions of the embedding.
    - Labels, paths and console text are Rocq [string]s (their UTF-8 bytes).
    - The text handed to [processFileContent] is a JavaScript string: a
      sequence of UTF-16 code units, here [list N].
    - JavaScript numbers holding byte counts and line counts are integers
      ([Z]); numbers holding times and ratios are rationals ([Qc]), the
      values of the doubles. Comparisons and divisions by a power of 1024
      are exact on doubles; the other divisions, [t / 1000000] and the
      ratios of the summary, are rounded to the nearest double
      ([JS.double]).
    - Effects are threaded through a state and exception monad [M] over the
      process state [State]; what the operating system and Node decide
      (which paths are accessible, what a unit does when evaluated) is the
      [Host] record. *)

From Stdlib Require Import Ascii QArith Qcanon Qround Qpower Qabs Lqa.
From stdpp Require Import base numbers list strings pretty gmap.

Local Open Scope Z_scope.

(** ** JavaScript library functions used by the runner *)

Module JS.

(** A JavaScript string as its UTF-16 code units. *)
Abbreviation jsstring := (list N).

(** [s.split(sep)] for a separator of one code unit. The result is never
    empty: the empty string splits into one empty piece. *)
Fixpoint split (sep : N) (s : jsstring) : list jsstring :=
  match s with
  | [] => [[]]
  | c :: r =>
      if (c =? sep)%N then [] :: split sep r
      else match split sep r with
           | l :: ls => (c :: l) :: ls
           | [] => [[c]]
           end
  end.

(** ECMAScript WhiteSpace and LineTerminator code units, the ones
    [String.prototype.trim] strips. *)
Definition isWhiteSpace (c : N) : bool :=
  ((9 <=? c) && (c <=? 13) || (c =? 32) || (c =? 160) || (c =? 5760)
   || (8192 <=? c) && (c <=? 8202) || (c =? 8232) || (c =? 8233)
   || (c =? 8239) || (c =? 8287) || (c =? 12288) || (c =? 65279))%N.

Fixpoint trimStart (s : jsstring) : jsstring :=
  match s with
  | [] => []
  | c :: r => if isWhiteSpace c then trimStart r else s
  end.

Definition trimEnd (s : jsstring) : jsstring :=
  reverse (trimStart (reverse s)).

Definition trim (s : jsstring) : jsstring := trimEnd (trimStart s).

Definition isHighSurrogate (c : N) : bool := ((55296 <=? c) && (c <=? 56319))%N.
Definition isLowSurrogate (c : N) : bool := ((56320 <=? c) && (c <=? 57343))%N.

(** [Buffer.byteLength(s, 'utf8')]: one byte below U+0080, two below
    U+0800, four for a surrogate pair, three otherwise (an unpaired
    surrogate is encoded as U+FFFD). *)
Fixpoint byteLength (s : jsstring) : Z :=
  match s with
  | [] => 0
  | c :: r =>
      if (c <? 128)%N then 1 + byteLength r
      else if (c <? 2048)%N then 2 + byteLength r
      else if isHighSurrogate c then
        match r with
        | d :: r' => if isLowSurrogate d then 4 + byteLength r'
                     else 3 + byteLength r
        | [] => 3
        end
      else 3 + byteLength r
  end.

(** [s.length]. *)
Definition length (s : jsstring) : Z := Z.of_nat (List.length s).

(** [Math.floor(Math.log(x) / Math.log(k))] for an integer [x >= 1] and a
    base [k >= 2], computed exactly: how many times [x] can be divided by
    [k] before it drops below [k]. The code takes the quotient of the two
    logarithms in doubles, where the rounded quotient can reach the next
    integer just below a large power of [k] (for 1024 at 2^50 - 1, and not
    below 1024^4, the range of the unit table); there the index of the code
    is one more than this one. *)
Fixpoint floorLog_fuel (fuel : nat) (k x : Z) : Z :=
  match fuel with
  | O => 0
  | S fuel' => if x <? k then 0 else 1 + floorLog_fuel fuel' k (x / k)
  end.

Definition floorLog (k x : Z) : Z :=
  floorLog_fuel (Z.to_nat (Z.log2 x)) k x.

(** The integer [n] for which [n / 10^f - x] is as close to zero as
    possible, the larger one when there are two (ECMAScript
    Number.prototype.toFixed, step 8a), for [x >= 0]. *)
Definition nearestScaled (x : Qc) (f : nat) : Z :=
  Qfloor (this x * inject_Z (10 ^ Z.of_nat f) + Qmake 1 2)%Q.

Fixpoint zeros (n : nat) : string :=
  match n with O => "" | S n' => "0" +:+ zeros n' end.

(** The decimal digits of [n], padded on the left with zeros to [f]
    digits. *)
Definition padDigits (f : nat) (n : Z) : string :=
  let m := pretty n in
  zeros (f - String.length m) +:+ m.

(** The digits of a scaled integer [n] with the point [f] places from the
    right. *)
Definition renderScaled (n : Z) (f : nat) : string :=
  match f with
  | O => pretty n
  | _ => pretty (n / 10 ^ Z.of_nat f) +:+ "." +:+ padDigits f (n mod 10 ^ Z.of_nat f)
  end.

(** [x.toFixed(f)] for a finite [x] below 10^21 in absolute value. *)
Definition toFixed (x : Qc) (f : nat) : string :=
  if bool_decide (x < 0)%Qc
  then "-" +:+ renderScaled (nearestScaled (- x)%Qc f) f
  else renderScaled (nearestScaled x f) f.

(** [s.repeat(n)]. *)
Fixpoint repeat (s : string) (n : nat) : string :=
  match n with O => "" | S n' => s +:+ repeat s n' end.

(** The pieces of a path between the separators [c]. *)
Fixpoint pieces (c : Ascii.ascii) (s : string) : list string :=
  match s with
  | EmptyString => [EmptyString]
  | String a r =>
      if bool_decide (a = c) then EmptyString :: pieces c r
      else match pieces c r with
           | p :: ps => String a p :: ps
           | [] => [String a EmptyString]
           end
  end.

(** POSIX [path.basename(p)]: the last non-empty component of [p]. *)
Definition basename (p : string) : string :=
  List.last (List.filter (fun s => negb (String.eqb s "")) (pieces "/"%char p)) "".

(** [Number(n)] of an integer, as an exact rational. *)
Definition number (n : Z) : Qc := Qc_of_Z n.

(** The exponent of a positive rational: [2^e <= q < 2^(e+1)]. *)
Definition floorLog2 (q : Q) : Z :=
  let e := Z.log2 (Qnum q) - Z.log2 (Zpos (Qden q)) in
  if Qle_bool (Qpower 2 e) q then e else e - 1.

(** The nearest integer, the even one at a tie. *)
Definition roundHalfEven (x : Q) : Z :=
  let n := Qfloor x in
  match Qcompare (x - inject_Z n) (Qmake 1 2) with
  | Lt => n
  | Gt => n + 1
  | Eq => if Z.even n then n else n + 1
  end.

(** A positive rational rounded to 53 significant bits. *)
Definition roundTo53 (q : Q) : Q :=
  let e := floorLog2 q in
  (inject_Z (roundHalfEven (q * Qpower 2 (52 - e))) * Qpower 2 (e - 52))%Q.

(** The double nearest to a real number, ties to even: the rounding of
    IEEE 754 binary64 arithmetic in its normal range (magnitudes from
    2^-1022 up to, not including, 2^1024). *)
Definition double (x : Qc) : Qc :=
  match Qcompare (this x) 0 with
  | Eq => x
  | Gt => Q2Qc (roundTo53 (this x))
  | Lt => (- Q2Qc (roundTo53 (- this x)))%Qc
  end.

(** [Number(n)] of a BigInt: the nearest double. *)
Definition numberOfBigInt (n : Z) : Qc := double (number n).

(** The value of a division of two doubles. *)
Inductive Quotient :=
| Finite (q : Qc)
| Infinite (negative : bool)
| NotANumber.

(** [a / b] for doubles [a] and [b], [b] not the negative zero: the
    rounded quotient, an infinity when it is out of range or when [b] is
    zero, NaN for zero by zero. *)
Definition divide (a b : Qc) : Quotient :=
  if bool_decide (b = 0%Qc) then
    if bool_decide (a = 0%Qc) then NotANumber
    else Infinite (bool_decide (a < 0)%Qc)
  else
    let d := double (a / b) in
    if bool_decide (Qc_of_Z (2 ^ 1024) <= d)%Qc then Infinite false
    else if bool_decide (d <= - Qc_of_Z (2 ^ 1024))%Qc then Infinite true
    else Finite d.

(** [x.toFixed(f)] for the value of a division, a finite one being below
    10^21 in absolute value. *)
Definition toFixedQuotient (x : Quotient) (f : nat) : string :=
  match x with
  | Finite q => toFixed q f
  | Infinite false => "Infinity"
  | Infinite true => "-Infinity"
  | NotANumber => "NaN"
  end.

(** [arr.reduce(f)] without an initial value: [None] stands for the
    TypeError on an empty array. *)
Definition reduce {A} (f : A -> A -> A) (arr : list A) : option A :=
  match arr with
  | [] => None
  | x :: xs => Some (fold_left f xs x)
  end.

(** The line feed of a template literal. *)
Definition LF : string := String "010" EmptyString.

End JS.

(** ** Data model *)

(** [process.memoryUsage()]: byte counts. *)
Record MemoryUsage := {
  rss : Z;
  heapTotal : Z;
  heapUsed : Z
}.

(** The object built by [processFileContent]. *)
Record FileStats := {
  arquivo : string;
  totalLinhas : Z;
  linhasCodigo : Z;
  linhasVazias : Z;
  caracteres : Z;
  tamanhoArquivo : Z
}.

(** One element of [this.results]; [fileStats] is [None] for JavaScript's
    [null]. *)
Record Result := {
  name : string;
  executionTime : Qc;
  memory : MemoryUsage;
  memoryDiff : MemoryUsage;
  fileStats : option FileStats
}.

(** ** Effects: console, exceptions, the host *)

Inductive ConsoleEvent :=
| Log (text : string)
| Warn (text : string)
| Error (text : string)
| Time (label : string)
| TimeEnd (label : string).

(** An [Error] object with its message. More generally, a value whose
    [message] property can be read: [message] is then the text the console
    prints for the property, [undefined] for a thrown string or number. *)
Record JsError := { message : string }.

(** A thrown value, as a [catch] handler that reads [error.message] sees
    it: either the property can be read, or reading it throws in turn, a
    TypeError for [null] and [undefined]. *)
Inductive Thrown :=
| Readable (e : JsError)
| Unreadable (raised : Thrown).

(** [throw null]. *)
Definition thrownNull : Thrown :=
  Unreadable (Readable {| message := "Cannot read properties of null (reading 'message')" |}).

(** How a computation ends when it does not return: by an exception, which
    a [try] can catch, or not at all (an endless loop, or the end of the
    process). *)
Inductive Escape :=
| Raised (t : Thrown)
| Diverges.

Inductive Completion (E A : Type) :=
| Normal (a : A)
| Throw (e : E).
Arguments Normal {E A} a.
Arguments Throw {E A} e.

(** A [require] call that the code of a unit executes: the file it
    resolves to, and whether the top-level code of that file returns when
    it has to be evaluated. *)
Record Required := {
  r_module : string;
  r_loads : bool
}.

(** What one evaluation of the top-level code of a unit does, as the
    process sees it: the [require] calls it executes, in order; the time it
    takes in all (nanoseconds, below 2^64 as [process.hrtime] counts), the
    memory profile it leaves and what is printed meanwhile, the modules it
    loads included; and how it ends: [None] when it returns, an exception
    or no end at all otherwise. The unit does not write to [require.cache]
    other than by requiring modules. *)
Record Unit := {
  u_requires : list Required;
  u_elapsed : Z;
  u_memory : MemoryUsage;
  u_output : list ConsoleEvent;
  u_error : option Escape
}.

(** The environment of the process. The calls of the [fs] and module
    interfaces fail with [Error] objects. [unit_of file n] is the behaviour
    of the top-level code of [file] when it has been evaluated [n] times
    before, so a unit that keeps a counter on disk behaves differently each
    time. *)
Record Host := {
  access : string -> Completion JsError unit;
  path_resolve : string -> string;
  require_resolve : string -> Completion JsError string;
  unit_of : string -> nat -> Unit;
  readFileSync : string -> Completion JsError JS.jsstring;
  toUpperCase : string -> string
}.

(** The state of the process: the runner's [this.results], the console, the
    keys of [require.cache], the log of module evaluations, and the current
    readings of [process.hrtime.bigint()] and [process.memoryUsage()]. *)
Record State := {
  results : list Result;
  console : list ConsoleEvent;
  require_cache : gset string;
  evaluated : list string;
  hrtime : Z;
  memoryUsage : MemoryUsage
}.

Definition M (A : Type) : Type := State -> State * Completion Escape A.

#[global] Instance M_ret : MRet M := fun A a s => (s, Normal a).

#[global] Instance M_bind : MBind M := fun A B f m s =>
  match m s with
  | (s', Normal a) => f a s'
  | (s', Throw e) => (s', Throw e)
  end.

#[global] Instance M_throw : MThrow Thrown M := fun A t s => (s, Throw (Raised t)).

(** [try { body } catch (error) { handler }]: the handler gets what the
    body throws; a body that does not end is not caught. *)
Definition try_catch {A} (body : M A) (handler : Thrown -> M A) : M A :=
  fun s =>
    match body s with
    | (s', Normal a) => (s', Normal a)
    | (s', Throw (Raised t)) => handler t s'
    | (s', Throw Diverges) => (s', Throw Diverges)
    end.

(** [error.message]. *)
Definition readMessage (error : Thrown) : M string :=
  match error with
  | Readable e => mret (message e)
  | Unreadable raised => mthrow raised
  end.

Definition gets {A} (f : State -> A) : M A := fun s => (s, Normal (f s)).

Definition modify (f : State -> State) : M unit := fun s => (f s, Normal tt).

(** The completion of a host call, as a computation. *)
Definition lift {A} (c : Completion JsError A) : M A :=
  fun s =>
    (s, match c with
        | Normal a => Normal a
        | Throw e => Throw (Raised (Readable e))
        end).

Definition set_results (f : list Result -> list Result) (s : State) : State :=
  {| results := f (results s); console := console s;
     require_cache := require_cache s; evaluated := evaluated s;
     hrtime := hrtime s; memoryUsage := memoryUsage s |}.

Definition set_console (f : list ConsoleEvent -> list ConsoleEvent) (s : State) : State :=
  {| results := results s; console := f (console s);
     require_cache := require_cache s; evaluated := evaluated s;
     hrtime := hrtime s; memoryUsage := memoryUsage s |}.

Definition set_require_cache (f : gset string -> gset string) (s : State) : State :=
  {| results := results s; console := console s;
     require_cache := f (require_cache s); evaluated := evaluated s;
     hrtime := hrtime s; memoryUsage := memoryUsage s |}.

Definition emit (e : ConsoleEvent) : M unit :=
  modify (set_console (fun c => c ++ [e])).

Fixpoint forEach {A} (arr : list A) (f : A -> M unit) : M unit :=
  match arr with
  | [] => mret tt
  | x :: xs => f x ;; forEach xs f
  end.

(** [arr.reduce(f)] as a computation: a TypeError on the empty array. *)
Definition reduceM {A} (f : A -> A -> A) (arr : list A) : M A :=
  match JS.reduce f arr with
  | Some a => mret a
  | None => mthrow (Readable {| message := "Reduce of empty array with no initial value" |})
  end.

(** [arr[i]] for a numeric index: [None] stands for [undefined]. *)
Definition index {A} (arr : list A) (i : Z) : option A :=
  if i <? 0 then None else arr !! Z.to_nat i.

(** An array element inside a template literal. *)
Definition interpolate (v : option string) : string :=
  match v with Some s => s | None => "undefined" end.

(** ** The methods of [BenchmarkRunner] *)

Definition sizes : list string := ["B"; "KB"; "MB"; "GB"].

(** [formatBytes(bytes)] for an integer byte count, which is what every
    caller passes (fields of [process.memoryUsage()], their differences, a
    byte length). The index [i] is the exact floor of the base-1024
    logarithm, and [sizes[i]] outside the table is [undefined]. *)
Definition formatBytes (bytes : Z) : string :=
  if bytes =? 0 then "0 B"
  else
    let k := 1024 in
    let i := JS.floorLog k (Z.abs bytes) in
    JS.toFixed (JS.number bytes / JS.number (k ^ i)) 2
      +:+ " " +:+ interpolate (index sizes i).

(** [formatDiff(diff)]. *)
Definition formatDiff (diff : Z) : string :=
  let sign := if 0 <=? diff then "+" else "" in
  sign +:+ formatBytes diff.

(** [showMemoryUsage(memoria, diff = null)]. *)
Definition showMemoryUsage (memoria : MemoryUsage) (diff : option MemoryUsage) : M unit :=
  let delta (field : MemoryUsage -> Z) :=
    match diff with
    | Some d => "(" +:+ formatDiff (field d) +:+ ")"
    | None => ""
    end in
  emit (Log (" Memória RSS: " +:+ formatBytes (rss memoria) +:+ " " +:+ delta rss)) ;;
  emit (Log (" Heap Total: " +:+ formatBytes (heapTotal memoria) +:+ " " +:+ delta heapTotal)) ;;
  emit (Log (" Heap Usado: " +:+ formatBytes (heapUsed memoria) +:+ " " +:+ delta heapUsed)).

(** [linha.trim() === '']. *)
Definition blank (linha : JS.jsstring) : bool := bool_decide (JS.trim linha = []).

(** The [stats] object of [processFileContent]. *)
Definition stats (conteudo : JS.jsstring) (arquivo : string) : FileStats :=
  let linhas := JS.split 10 conteudo in
  let linhasVazias := Z.of_nat (List.length (List.filter blank linhas)) in
  let linhasCodigo := Z.of_nat (List.length linhas) - linhasVazias in
  {| arquivo := JS.basename arquivo;
     totalLinhas := Z.of_nat (List.length linhas);
     linhasCodigo := linhasCodigo;
     linhasVazias := linhasVazias;
     caracteres := JS.length conteudo;
     tamanhoArquivo := JS.byteLength conteudo |}.

(** [processFileContent(conteudo, arquivo)]. *)
Definition processFileContent (conteudo : JS.jsstring) (arquivo' : string) : M FileStats :=
  let stats := stats conteudo arquivo' in
  emit (Log (" Arquivo: " +:+ stats.(arquivo))) ;;
  emit (Log (" Total de linhas: " +:+ pretty stats.(totalLinhas))) ;;
  emit (Log (" Linhas de código: " +:+ pretty stats.(linhasCodigo))) ;;
  emit (Log (" Linhas vazias: " +:+ pretty stats.(linhasVazias))) ;;
  emit (Log (" Caracteres: " +:+ pretty stats.(caracteres))) ;;
  emit (Log (" Tamanho: " +:+ formatBytes stats.(tamanhoArquivo))) ;;
  mret stats.

(** The modules that a sequence of [require] calls evaluates, first to
    last, when [cache] holds the modules loaded so far: a call for a cached
    module evaluates nothing, and a module whose code did not return is
    not kept in the cache. *)
Fixpoint loadedBy (rs : list Required) (cache : gset string) : list string :=
  match rs with
  | [] => []
  | r :: rest =>
      if bool_decide (r_module r ∈ cache) then loadedBy rest cache
      else r_module r
           :: loadedBy rest (if r_loads r then {[r_module r]} ∪ cache else cache)
  end.

(** The cache after these calls. *)
Fixpoint cacheAfter (rs : list Required) (cache : gset string) : gset string :=
  match rs with
  | [] => cache
  | r :: rest =>
      if bool_decide (r_module r ∈ cache) then cacheAfter rest cache
      else cacheAfter rest (if r_loads r then {[r_module r]} ∪ cache else cache)
  end.

Section Runner.

Variable host : Host.

(** [analyzeFile(arquivo)]: a failed read is caught and answered by
    [null]. *)
Definition analyzeFile (arquivo : string) : M (option FileStats) :=
  try_catch
    (conteudo ← lift (readFileSync host arquivo);
     stats ← processFileContent conteudo arquivo;
     mret (Some stats))
    (fun error =>
       mensagem ← readMessage error;
       emit (Warn ("⚠️  Não foi possível analisar o arquivo '" +:+ arquivo
                   +:+ "': " +:+ mensagem)) ;;
       mret None).

(** How many times the module file [key] has been evaluated so far. *)
Definition timesEvaluated (key : string) (s : State) : nat :=
  List.length (List.filter (String.eqb key) (evaluated s)).

(** Running the top-level code of the module file [key], which has just
    been entered in the cache: the code is logged as evaluated, the
    modules it requires are loaded, and its effects take place. *)
Definition evaluate (key : string) : M unit :=
  fun s =>
    let u := unit_of host key (timesEvaluated key s) in
    ({| results := results s;
        console := console s ++ u_output u;
        require_cache := cacheAfter (u_requires u) (require_cache s);
        evaluated := evaluated s ++ key :: loadedBy (u_requires u) (require_cache s);
        hrtime := hrtime s + u_elapsed u;
        memoryUsage := u_memory u |},
     match u_error u with
     | Some e => Throw e
     | None => Normal tt
     end).

(** Node's [require(id)]: a module found in [require.cache] is not evaluated
    again; otherwise it is entered in the cache and evaluated, and removed
    from the cache again when its evaluation throws. *)
Definition require (id : string) : M unit :=
  key ← lift (require_resolve host id);
  cached ← gets (fun s => bool_decide (key ∈ require_cache s));
  if (cached : bool) then mret tt
  else
    modify (set_require_cache (fun c => {[key]} ∪ c)) ;;
    try_catch (evaluate key)
      (fun e => modify (set_require_cache (fun c => c ∖ {[key]})) ;; mthrow e).

(** [delete require.cache[key]]. *)
Definition delete_require_cache (key : string) : M unit :=
  modify (set_require_cache (fun c => c ∖ {[key]})).

(** [runBenchmark(name, filePath)]. *)
Definition runBenchmark (name filePath : string) : M unit :=
  emit (Log (JS.LF +:+ "=== " +:+ toUpperCase host name +:+ " ===")) ;;
  try_catch
    (lift (access host filePath) ;;
     startTime ← gets hrtime;
     startMemory ← gets memoryUsage;
     emit (Time ("Tempo " +:+ name)) ;;
     key ← lift (require_resolve host (path_resolve host filePath));
     delete_require_cache key ;;
     require (path_resolve host filePath) ;;
     emit (TimeEnd ("Tempo " +:+ name)) ;;
     endTime ← gets hrtime;
     endMemory ← gets memoryUsage;
     let executionTime :=
       JS.double (JS.numberOfBigInt (endTime - startTime) / JS.number 1000000)%Qc in
     let memoryDiff :=
       {| rss := rss endMemory - rss startMemory;
          heapTotal := heapTotal endMemory - heapTotal startMemory;
          heapUsed := heapUsed endMemory - heapUsed startMemory |} in
     showMemoryUsage endMemory (Some memoryDiff) ;;
     fileStats ← analyzeFile filePath;
     modify (set_results (fun rs =>
       rs ++ [ {| name := name;
                  executionTime := executionTime;
                  memory := endMemory;
                  memoryDiff := memoryDiff;
                  fileStats := fileStats |} ])))
    (fun error =>
       mensagem ← readMessage error;
       emit (Error (" Erro ao executar '" +:+ filePath +:+ "': " +:+ mensagem)) ;;
       emit (Error " Certifique-se de que o arquivo existe e é válido.")).

End Runner.

(** ** The summary *)

(** The reducer that finds the fastest result. *)
Definition faster (prev curr : Result) : Result :=
  if bool_decide (executionTime prev < executionTime curr)%Qc then prev else curr.

(** The reducer that finds the result using the least heap. *)
Definition leaner (prev curr : Result) : Result :=
  if bool_decide (heapUsed (memory prev) < heapUsed (memory curr)) then prev else curr.

(** The two ratios before [toFixed]: divisions of doubles. *)
Definition speedQuotient (result fastest : Result) : JS.Quotient :=
  JS.divide (executionTime result) (executionTime fastest).

Definition memoryQuotient (result mostMemoryEfficient : Result) : JS.Quotient :=
  JS.divide (JS.number (heapUsed (memory result)))
            (JS.number (heapUsed (memory mostMemoryEfficient))).

Definition speedRatio (result fastest : Result) : string :=
  JS.toFixedQuotient (speedQuotient result fastest) 2.

Definition memoryRatio (result mostMemoryEfficient : Result) : string :=
  JS.toFixedQuotient (memoryQuotient result mostMemoryEfficient) 2.

(** The body of the [forEach] callback of [showSummary]. *)
Definition showResult (fastest mostMemoryEfficient result : Result) : M unit :=
  emit (Log (JS.LF +:+ "  " +:+ name result +:+ ":")) ;;
  emit (Log (" Tempo: " +:+ JS.toFixed (executionTime result) 2 +:+ "ms ("
             +:+ speedRatio result fastest +:+ "x)")) ;;
  emit (Log (" Memória: " +:+ formatBytes (heapUsed (memory result)) +:+ " ("
             +:+ memoryRatio result mostMemoryEfficient +:+ "x)")) ;;
  match fileStats result with
  | Some fs => emit (Log ("  Complexidade: " +:+ pretty (linhasCodigo fs)
                          +:+ " linhas de código"))
  | None => mret tt
  end.

(** [showSummary()]. *)
Definition showSummary : M unit :=
  rs ← gets results;
  if bool_decide (List.length rs = 0%nat) then
    emit (Log (JS.LF +:+ " Nenhum benchmark foi executado."))
  else
    emit (Log (JS.LF +:+ JS.repeat "=" 50)) ;;
    emit (Log " RESUMO COMPARATIVO") ;;
    emit (Log (JS.repeat "=" 50)) ;;
    fastest ← reduceM faster rs;
    mostMemoryEfficient ← reduceM leaner rs;
    forEach rs (showResult fastest mostMemoryEfficient) ;;
    emit (Log (JS.LF +:+ " Mais rápido: " +:+ name fastest)) ;;
    emit (Log (" Mais eficiente em memória: " +:+ name mostMemoryEfficient)).

(** The empty runner of [new BenchmarkRunner()] in a process whose clock
    reads [t] and whose memory profile is [m]. *)
Definition newProcess (t : Z) (m : MemoryUsage) : State :=
  {| results := []; console := []; require_cache := ∅; evaluated := [];
     hrtime := t; memoryUsage := m |}.

(** [await new Promise(resolve => setTimeout(resolve, ms))]: the clock moves
    on by [ms] milliseconds. *)
Definition pause (ms : Z) : M unit :=
  modify (fun s =>
    {| results := results s; console := console s;
       require_cache := require_cache s; evaluated := evaluated s;
       hrtime := hrtime s + ms * 1000000; memoryUsage := memoryUsage s |}).

(** [exemploDeUso()], the default driver. *)
Definition exemploDeUso (host : Host) : M unit :=
  emit (Log (" Iniciando comparação entre paradigmas de programação..." +:+ JS.LF)) ;;
  runBenchmark host "Estruturado" "./estruturado.js" ;;
  pause 100 ;;
  runBenchmark host "POO" "./poo.js" ;;
  showSummary ;;
  emit (Log (JS.LF +:+ " Análise concluída!")).

(** ** What the specification says, for comparison *)

(** The first entry of [rs] whose key is minimal: the tie-break the
    specification describes. *)
Fixpoint firstMinimum {A} (lt : A -> A -> bool) (rs : list A) : option A :=
  match rs with
  | [] => None
  | r :: rest =>
      match firstMinimum lt rest with
      | Some m => if lt m r then Some m else Some r
      | None => Some r
      end
  end.

Definition timeLt (a b : Result) : bool :=
  bool_decide (executionTime a < executionTime b)%Qc.

Definition heapLt (a b : Result) : bool :=
  bool_decide (heapUsed (memory a) < heapUsed (memory b)).

(** ** Auxiliary definitions of the statements *)

(** *** What is printed *)

(** The state after printing the events [evs]. *)
Definition logs (s : State) (evs : list ConsoleEvent) : State :=
  set_console (fun c => c ++ evs) s.

(** The six lines [processFileContent] prints. *)
Definition fileLines (st : FileStats) : list ConsoleEvent :=
  [ Log (" Arquivo: " +:+ arquivo st);
    Log (" Total de linhas: " +:+ pretty (totalLinhas st));
    Log (" Linhas de código: " +:+ pretty (linhasCodigo st));
    Log (" Linhas vazias: " +:+ pretty (linhasVazias st));
    Log (" Caracteres: " +:+ pretty (caracteres st));
    Log (" Tamanho: " +:+ formatBytes (tamanhoArquivo st)) ].

(** The three lines of [showMemoryUsage] with a difference. *)
Definition memoryLines (memoria diff : MemoryUsage) : list ConsoleEvent :=
  [ Log (" Memória RSS: " +:+ formatBytes (rss memoria) +:+ " "
         +:+ "(" +:+ formatDiff (rss diff) +:+ ")");
    Log (" Heap Total: " +:+ formatBytes (heapTotal memoria) +:+ " "
         +:+ "(" +:+ formatDiff (heapTotal diff) +:+ ")");
    Log (" Heap Usado: " +:+ formatBytes (heapUsed memoria) +:+ " "
         +:+ "(" +:+ formatDiff (heapUsed diff) +:+ ")") ].

(** The lines [showSummary] prints for one result. *)
Definition resultLines (fastest mostMemoryEfficient result : Result) : list ConsoleEvent :=
  [ Log (JS.LF +:+ "  " +:+ name result +:+ ":");
    Log (" Tempo: " +:+ JS.toFixed (executionTime result) 2 +:+ "ms ("
         +:+ speedRatio result fastest +:+ "x)");
    Log (" Memória: " +:+ formatBytes (heapUsed (memory result)) +:+ " ("
         +:+ memoryRatio result mostMemoryEfficient +:+ "x)") ]
  ++ match fileStats result with
     | Some fs => [ Log ("  Complexidade: " +:+ pretty (linhasCodigo fs)
                         +:+ " linhas de código") ]
     | None => []
     end.

(** All the lines of a summary of the results [rs], with [fastest] and
    [mostMemoryEfficient] the two winners. *)
Definition summaryLines (fastest mostMemoryEfficient : Result) (rs : list Result)
  : list ConsoleEvent :=
  [ Log (JS.LF +:+ JS.repeat "=" 50);
    Log " RESUMO COMPARATIVO";
    Log (JS.repeat "=" 50) ]
  ++ flat_map (resultLines fastest mostMemoryEfficient) rs
  ++ [ Log (JS.LF +:+ " Mais rápido: " +:+ name fastest);
       Log (" Mais eficiente em memória: " +:+ name mostMemoryEfficient) ].

(** The line [analyzeFile] prints when the read fails. *)
Definition warning (arquivo : string) (error : JsError) : ConsoleEvent :=
  Warn ("⚠️  Não foi possível analisar o arquivo '" +:+ arquivo
        +:+ "': " +:+ message error).

(** The lines a run prints when it is caught. *)
Definition errorLines (filePath : string) (error : JsError) : list ConsoleEvent :=
  [ Error (" Erro ao executar '" +:+ filePath +:+ "': " +:+ message error);
    Error " Certifique-se de que o arquivo existe e é válido." ].

(** The line that opens a run. *)
Definition header (host : Host) (name : string) : ConsoleEvent :=
  Log (JS.LF +:+ "=== " +:+ toUpperCase host name +:+ " ===").

(** *** The states of a run *)

(** The state in which the unit [key] has been loaded from [s]: its output
    is on the console, its evaluation and those of the modules it loaded
    are logged, the clock and the memory profile have moved, and the
    modules are in the cache. *)
Definition loaded (host : Host) (key : string) (s : State) : State :=
  let u := unit_of host key (timesEvaluated key s) in
  {| results := results s;
     console := console s ++ u_output u;
     require_cache := cacheAfter (u_requires u) ({[key]} ∪ require_cache s);
     evaluated :=
       evaluated s ++ key :: loadedBy (u_requires u) ({[key]} ∪ require_cache s);
     hrtime := hrtime s + u_elapsed u;
     memoryUsage := u_memory u |}.

(** The state in which the unit is about to be required: the header and
    the timer are on the console and the module is out of the cache. *)
Definition prepared (host : Host) (name key : string) (s : State) : State :=
  set_require_cache (fun c => c ∖ {[key]})
    (logs s [header host name; Time ("Tempo " +:+ name)]).

(** The state in which the measurements have been printed. *)
Definition measuredState (host : Host) (name key : string) (s : State) : State :=
  let u := unit_of host key (timesEvaluated key s) in
  logs (loaded host key (prepared host name key s))
    (TimeEnd ("Tempo " +:+ name)
     :: memoryLines (u_memory u)
          {| rss := rss (u_memory u) - rss (memoryUsage s);
             heapTotal := heapTotal (u_memory u) - heapTotal (memoryUsage s);
             heapUsed := heapUsed (u_memory u) - heapUsed (memoryUsage s) |}).

(** The result a successful run appends. *)
Definition measured (host : Host) (name key : string) (s : State) (fs : option FileStats) : Result :=
  let u := unit_of host key (timesEvaluated key s) in
  {| name := name;
     executionTime :=
       JS.double (JS.numberOfBigInt (hrtime s + u_elapsed u - hrtime s)
                  / JS.number 1000000)%Qc;
     memory := u_memory u;
     memoryDiff :=
       {| rss := rss (u_memory u) - rss (memoryUsage s);
          heapTotal := heapTotal (u_memory u) - heapTotal (memoryUsage s);
          heapUsed := heapUsed (u_memory u) - heapUsed (memoryUsage s) |};
     fileStats := fs |}.

(** Whether a run of [filePath] started in [s] appends a result: the
    artifact is accessible, resolves to a module, and the evaluation of
    its unit returns. *)
Definition succeeds (host : Host) (filePath : string) (s : State) : bool :=
  match access host filePath, require_resolve host (path_resolve host filePath) with
  | Normal _, Normal key =>
      match u_error (unit_of host key (timesEvaluated key s)) with
      | None => true
      | Some _ => false
      end
  | _, _ => false
  end.

(** *** Lists *)

(** [pieces.join(sep)] for a separator of one code unit, the inverse of
    [JS.split]. *)
Fixpoint join (sep : N) (ls : list JS.jsstring) : JS.jsstring :=
  match ls with
  | [] => []
  | [l] => l
  | l :: ls' => l ++ sep :: join sep ls'
  end.

(** The shape of both reducers of [showSummary]: keep [prev] when it is
    strictly below [curr], else take [curr]. *)
Definition pick {A} (ltb : A -> A -> bool) (prev curr : A) : A :=
  if ltb prev curr then prev else curr.

(** *** Concrete instances *)

(** A process at rest, for the concrete instances below. *)
Definition idle : MemoryUsage := {| rss := 40000000; heapTotal := 6000000; heapUsed := 4000000 |}.

(** A result with the given name, time in milliseconds and heap in use. *)
Definition entry (n : string) (ms heap : Z) : Result :=
  {| name := n;
     executionTime := JS.number ms;
     memory := {| rss := 40000000; heapTotal := 6000000; heapUsed := heap |};
     memoryDiff := {| rss := 0; heapTotal := 0; heapUsed := 0 |};
     fileStats := None |}.

(** Two results equal in both dimensions. *)
Definition tied : list Result := [entry "A" 50 1000; entry "B" 50 1000].

(** The two results of the specification's example. *)
Definition sample : list Result := [entry "A" 100 1000; entry "B" 50 2000].

(** Upper case of the ASCII letters, other bytes unchanged. *)
Definition upperAscii (c : ascii) : ascii :=
  let n := nat_of_ascii c in
  if ((97 <=? n) && (n <=? 122))%nat then ascii_of_nat (n - 32) else c.

Fixpoint upper (s : string) : string :=
  match s with
  | EmptyString => EmptyString
  | String c r => String (upperAscii c) (upper r)
  end.

(** A host in which [./estruturado.js] does not exist, [broken.js] throws
    when it is evaluated, [./unreadable.js] runs but cannot be read, and
    every other unit runs for 2.5 ms plus one nanosecond per earlier
    evaluation and prints how often it has been evaluated before. *)
Definition demoHost : Host :=
  {| access := fun p =>
       if String.eqb p "./estruturado.js"
       then Throw {| message := "ENOENT: no such file or directory, access './estruturado.js'" |}
       else Normal tt;
     path_resolve := fun p => "/work/" +:+ JS.basename p;
     require_resolve := fun p => Normal p;
     unit_of := fun key n =>
       if String.eqb key "/work/broken.js"
       then {| u_requires := []; u_elapsed := 1000000; u_memory := idle; u_output := [];
               u_error := Some (Raised (Readable {| message := "dados.csv not found" |})) |}
       else {| u_requires := []; u_elapsed := 2500000 + Z.of_nat n;
               u_memory := {| rss := 41000000; heapTotal := 6500000;
                              heapUsed := 4200000 + Z.of_nat n |};
               u_output := [Log ("evaluated before: " +:+ pretty n)];
               u_error := None |};
     readFileSync := fun p =>
       if String.eqb p "./unreadable.js"
       then Throw {| message := "EACCES: permission denied, open './unreadable.js'" |}
       else Normal [99; 111; 110; 115; 116; 32; 120; 59; 10; 10; 120; 43; 43; 59]%N;
     toUpperCase := upper |}.

(** The lines [showSummary] prints for the result list [rs]. *)
Definition summaryOf (rs : list Result) : list ConsoleEvent :=
  match rs with
  | [] => [Log (JS.LF +:+ " Nenhum benchmark foi executado.")]
  | r :: rs' => summaryLines (fold_left faster rs' r) (fold_left leaner rs' r) rs
  end.

(** *** Texts with other line endings *)



(** How many line feeds a text holds. *)
Definition lineFeeds (s : JS.jsstring) : Z :=
  Z.of_nat (List.length (List.filter (fun c => (c =? 10)%N) s)).

(** A host like [demoHost] in which [./estruturado.js] exists and is the
    one line [throw null]. *)
Definition nullHost : Host :=
  {| access := fun _ => Normal tt;
     path_resolve := path_resolve demoHost;
     require_resolve := require_resolve demoHost;
     unit_of := fun key n =>
       if String.eqb key "/work/estruturado.js"
       then {| u_requires := []; u_elapsed := 40000; u_memory := idle; u_output := [];
               u_error := Some (Raised thrownNull) |}
       else unit_of demoHost key n;
     readFileSync := readFileSync demoHost;
     toUpperCase := toUpperCase demoHost |}.



(** ** The benchmarked units: CSV handling

    [ManipuladorCSV] of src/poo.js, and the functions of the same names of
    the structured variant (the script that the driver runs as
    [./estruturado.js]). A record's [texto] is a JavaScript string, its
    [id] a JavaScript number. The conversions between numbers and their
    text, [Number(text)] and the [${n}] of a template literal, are taken as
    parameters. File contents are handled as texts: what [salvarCSV] writes
    is [conteudoCSV], what [lerCSV] makes of a text that was read is
    [converterParaObjetos] of its [linhasDe]. *)

Module CSV.

(** A JavaScript number, with exact rationals for the finite ones. *)
Inductive number :=
| NaN
| Finite (q : Qc)
| Infinity (negative : bool).

(** [a !== b] on numbers: NaN differs from everything, itself included. *)
Definition strictNe (a b : number) : bool :=
  match a, b with
  | Finite p, Finite q => negb (bool_decide (p = q))
  | Infinity x, Infinity y => negb (Bool.eqb x y)
  | _, _ => true
  end.

Record Linha := { id : number; texto : JS.jsstring }.

(** [arr.map(f)] for an [f] that may throw: the first exception ends the
    loop. *)
Fixpoint mapThrowing {A B} (f : A -> Completion JsError B) (arr : list A)
  : Completion JsError (list B) :=
  match arr with
  | [] => Normal []
  | x :: xs =>
      match f x with
      | Throw e => Throw e
      | Normal y =>
          match mapThrowing f xs with
          | Throw e => Throw e
          | Normal ys => Normal (y :: ys)
          end
      end
  end.

Section Conversions.

Variable toNumber : JS.jsstring -> number.
Variable numberToString : number -> JS.jsstring.

(** The callback of [map] in [lerCSV]:
    [const [id, texto] = linha.split(','); return { id: Number(id), texto: texto.trim() }].
    Without a second piece [texto] is [undefined] and [texto.trim()] is a
    TypeError. *)
Definition converterLinha (linha : JS.jsstring) : Completion JsError Linha :=
  match JS.split 44 linha with
  | id :: texto :: _ => Normal {| id := toNumber id; texto := JS.trim texto |}
  | _ => Throw {| message := "Cannot read properties of undefined (reading 'trim')" |}
  end.

(** [linhas.filter(l => l.trim() !== '').map(...)]. *)
Definition converterParaObjetos (linhas : list JS.jsstring) : Completion JsError (list Linha) :=
  mapThrowing converterLinha (List.filter (fun l => negb (blank l)) linhas).

(** [conteudo.split('\n').slice(1)]. *)
Definition linhasDe (conteudo : JS.jsstring) : list JS.jsstring :=
  drop 1 (JS.split 10 conteudo).

(** [lerCSV(caminho)]. *)
Definition lerCSV (host : Host) (caminho : string) : M (list Linha) :=
  conteudo ← lift (readFileSync host caminho);
  lift (converterParaObjetos (linhasDe conteudo)).

(** The text [id,texto] and a line feed. *)
Definition cabecalho : JS.jsstring := [105; 100; 44; 116; 101; 120; 116; 111; 10]%N.

(** The [conteudo] of [salvarCSV]. *)
Definition conteudoCSV (dados : list Linha) : JS.jsstring :=
  cabecalho ++ join 10 (List.map (fun d => numberToString (id d) ++ 44%N :: texto d) dados).

End Conversions.

(** [contarLinhas()]. *)
Definition contarLinhas (dados : list Linha) : Z := Z.of_nat (List.length dados).

(** [adicionarLinha(id, texto)]. *)
Definition adicionarLinha (dados : list Linha) (id : number) (texto : JS.jsstring)
  : list Linha :=
  dados ++ [ {| id := id; texto := texto |} ].

(** [removerPorId(id)]. *)
Definition removerPorId (dados : list Linha) (i : number) : list Linha :=
  List.filter (fun d => strictNe (id d) i) dados.

(** [contarPalavras()]. *)
Definition contarPalavras (dados : list Linha) : Z :=
  fold_left (fun total item => total + Z.of_nat (List.length (JS.split 32 (texto item))))
            dados 0.

(** How many blanks (U+0020) the texts of [dados] hold. *)
Definition espacos (dados : list Linha) : Z :=
  Z.of_nat (List.length (List.filter (fun c => (c =? 32)%N) (flat_map texto dados))).

(** The decimal digits of a natural number, as code units. *)
Definition digitos (n : N) : JS.jsstring :=
  List.map (fun c => N.of_nat (nat_of_ascii c)) (String.list_ascii_of_string (pretty n)).

(** An instance of the two conversions, right on the non-negative integers
    and on the texts of decimal digits (the empty text is 0): every other
    number is rendered as the text NaN and every other text is read as
    NaN. *)
Definition decimalToString (n : number) : JS.jsstring :=
  match n with
  | Finite q =>
      if bool_decide (q = Qc_of_Z (Qfloor (this q)) /\ 0 <= Qfloor (this q))
      then digitos (Z.to_N (Qfloor (this q)))
      else [78; 97; 78]%N
  | _ => [78; 97; 78]%N
  end.

Fixpoint decimalValue (acc : N) (s : JS.jsstring) : option N :=
  match s with
  | [] => Some acc
  | c :: r =>
      if ((48 <=? c) && (c <=? 57))%N then decimalValue (10 * acc + (c - 48)) r
      else None
  end.

Definition decimalToNumber (s : JS.jsstring) : number :=
  match decimalValue 0 s with
  | Some n => Finite (Qc_of_Z (Z.of_N n))
  | None => NaN
  end.

End CSV.

(** *** Records of the CSV units *)

(** The record [lerCSV] makes of a line with a comma. *)
Definition registro (toNumber : JS.jsstring -> CSV.number) (l : JS.jsstring) : CSV.Linha :=
  {| CSV.id := toNumber (nth 0 (JS.split 44 l) []);
     CSV.texto := JS.trim (nth 1 (JS.split 44 l) []) |}.

(** Two records with decimal ids and plain texts. *)
Definition doisRegistros : list CSV.Linha :=
  [ {| CSV.id := CSV.Finite (Qc_of_Z 1); CSV.texto := [79; 108; 225; 32; 109; 117; 110; 100; 111]%N |};
    {| CSV.id := CSV.Finite (Qc_of_Z 12); CSV.texto := [74; 83]%N |} ].

(** * Properties *)

(** ** Text: splitting, trimming, byte length *)

Example split_demo : JS.split 10 [97; 10; 10; 98]%N = [[97]; []; [98]]%N.
Proof. reflexivity. Qed.
Example trim_demo : JS.trim [32; 9; 97; 32; 98; 13]%N = [97; 32; 98]%N.
Proof. reflexivity. Qed.
Example basename_demo : JS.basename "./dir/poo.js" = "poo.js".
Proof. reflexivity. Qed.
Example toFixed_demo : JS.toFixed (Q2Qc (Qmake 1005 1000)) 2 = "1.01"
                       /\ JS.toFixed (Q2Qc (Qmake (-5) 1000)) 2 = "-0.01"
                       /\ JS.toFixed (Q2Qc (Qmake 12345 10)) 2 = "1234.50".
Proof. vm_compute. auto. Qed.
Example floorLog_demo : JS.floorLog 1024 1023 = 0 /\ JS.floorLog 1024 1024 = 1
                        /\ JS.floorLog 1024 1048576 = 2 /\ JS.floorLog 1024 1 = 0.
Proof. vm_compute. auto. Qed.

Lemma split_cons_inv sep s : exists l ls, JS.split sep s = l :: ls.
Proof.
  destruct s as [|c r]; simpl; [by eexists _, _|].
  destruct (c =? sep)%N; [by eexists _, _|].
  destruct (JS.split sep r); by eexists _, _.
Qed.

Lemma split_length_pos sep s : (1 <= List.length (JS.split sep s))%nat.
Proof. destruct (split_cons_inv sep s) as (l & ls & ->). simpl. lia. Qed.

Lemma join_cons sep l l' ls :
  join sep (l :: l' :: ls) = l ++ sep :: join sep (l' :: ls).
Proof. reflexivity. Qed.

Lemma join_split sep s : join sep (JS.split sep s) = s.
Proof.
  induction s as [|c r IH]; [done|].
  destruct (split_cons_inv sep r) as (l & ls & E).
  cbn [JS.split]. rewrite E in *.
  destruct (N.eqb_spec c sep) as [->|Hne].
  - by rewrite join_cons, IH.
  - destruct ls as [|l' ls].
    + simpl in *. by rewrite IH.
    + rewrite join_cons in *. by rewrite <- IH.
Qed.

(** No piece contains the separator. *)
Lemma split_no_sep sep s : Forall (fun l => sep ∉ l) (JS.split sep s).
Proof.
  induction s as [|c r IH]; simpl.
  - constructor; [apply not_elem_of_nil | constructor].
  - destruct (N.eqb_spec c sep) as [->|Hne].
    + constructor; [apply not_elem_of_nil | done].
    + destruct (JS.split sep r) as [|l ls].
      * constructor; [|constructor]. intros [?|?%elem_of_nil]%elem_of_cons; congruence.
      * apply Forall_cons in IH as [Hl Hls]. constructor; [|done].
        intros [?|?]%elem_of_cons; [congruence | done].
Qed.

Lemma trimStart_nil_iff s :
  JS.trimStart s = [] <-> Forall (fun c => JS.isWhiteSpace c = true) s.
Proof.
  induction s as [|c r IH]; simpl.
  - split; [constructor | done].
  - destruct (JS.isWhiteSpace c) eqn:E.
    + rewrite IH. split; [by constructor | by inversion 1].
    + split; [done | inversion 1; congruence].
Qed.

(** What [trimStart] leaves does not start with white space. *)
Lemma trimStart_white s :
  Forall (fun c => JS.isWhiteSpace c = true) (JS.trimStart s) -> JS.trimStart s = [].
Proof.
  induction s as [|c r IH]; simpl; [done|].
  destruct (JS.isWhiteSpace c) eqn:E; [done|].
  inversion 1; congruence.
Qed.

(** A line is empty after [trim] exactly when all its code units are white
    space. *)
Lemma trim_nil_iff s :
  JS.trim s = [] <-> Forall (fun c => JS.isWhiteSpace c = true) s.
Proof.
  unfold JS.trim, JS.trimEnd. split.
  - intros H. apply (f_equal reverse) in H.
    rewrite reverse_involutive, reverse_nil in H.
    apply trimStart_nil_iff in H. rewrite Forall_reverse in H.
    by apply trimStart_nil_iff, trimStart_white.
  - intros H. apply trimStart_nil_iff in H. by rewrite H.
Qed.

Lemma trimStart_split s :
  exists pre, s = pre ++ JS.trimStart s /\ Forall (fun c => JS.isWhiteSpace c = true) pre.
Proof.
  induction s as [|c r (pre & Hr & Hpre)]; [by exists []|]. simpl.
  destruct (JS.isWhiteSpace c) eqn:E.
  - exists (c :: pre). split; [by rewrite Hr at 1 | by constructor].
  - by exists [].
Qed.

(** [trim] removes white space from both ends and nothing else. *)
Lemma trim_split s :
  exists pre post,
    s = pre ++ JS.trim s ++ post
    /\ Forall (fun c => JS.isWhiteSpace c = true) pre
    /\ Forall (fun c => JS.isWhiteSpace c = true) post.
Proof.
  destruct (trimStart_split s) as (pre & Hs & Hpre).
  destruct (trimStart_split (reverse (JS.trimStart s))) as (post & Hr & Hpost).
  exists pre, (reverse post). unfold JS.trim, JS.trimEnd.
  split; [|split; [done | by apply Forall_reverse]].
  rewrite <- reverse_app, <- Hr, reverse_involutive. exact Hs.
Qed.

Lemma blank_true_iff linha :
  blank linha = true <-> Forall (fun c => JS.isWhiteSpace c = true) linha.
Proof. unfold blank. rewrite bool_decide_eq_true. apply trim_nil_iff. Qed.

Lemma filter_length_le {A} (f : A -> bool) (l : list A) :
  (List.length (List.filter f l) <= List.length l)%nat.
Proof. induction l as [|x l IH]; simpl; [lia|]. destruct (f x); simpl; lia. Qed.

Lemma filter_length_split {A} (f : A -> bool) (l : list A) :
  (List.length (List.filter f l) + List.length (List.filter (fun x => negb (f x)) l)
   = List.length l)%nat.
Proof. induction l as [|x l IH]; simpl; [lia|]. destruct (f x); simpl; lia. Qed.

(** UTF-8 never needs fewer bytes than UTF-16 needs code units. *)
Lemma byteLength_ge_fuel n : forall s,
  (List.length s <= n)%nat -> JS.length s <= JS.byteLength s.
Proof.
  unfold JS.length. induction n as [|n IH]; intros [|c r] Hn; simpl in *; try lia.
  assert (Hr := IH r ltac:(lia)).
  destruct (c <? 128)%N; [lia|]. destruct (c <? 2048)%N; [lia|].
  destruct (JS.isHighSurrogate c); [|lia].
  destruct r as [|d r']; [simpl; lia|].
  destruct (JS.isLowSurrogate d); [|lia].
  destruct n as [|n']; [simpl in Hn; lia|].
  assert (Hr' := IH r' ltac:(simpl in *; lia)). simpl in *. lia.
Qed.

Lemma byteLength_ge s : JS.length s <= JS.byteLength s.
Proof. by apply (byteLength_ge_fuel (List.length s)). Qed.

(** On ASCII text the two lengths agree. *)
Lemma byteLength_ascii s :
  Forall (fun c => (c < 128)%N) s -> JS.byteLength s = JS.length s.
Proof.
  unfold JS.length. induction 1 as [|c r Hc _ IH]; simpl; [done|].
  apply N.ltb_lt in Hc. rewrite Hc. lia.
Qed.

(** ** Running computations *)

Lemma logs_logs s a b : logs (logs s a) b = logs s (a ++ b).
Proof. unfold logs, set_console. simpl. by rewrite <- app_assoc. Qed.

Lemma logs_nil s : logs s [] = s.
Proof. destruct s. unfold logs, set_console. simpl. by rewrite app_nil_r. Qed.

Lemma emit_run e s : emit e s = (logs s [e], Normal tt).
Proof. reflexivity. Qed.

Lemma bind_run {A B} (m : M A) (k : A -> M B) s s' a :
  m s = (s', Normal a) -> (m ≫= k) s = k a s'.
Proof. intros H. unfold mbind, M_bind. by rewrite H. Qed.

Lemma bind_throw {A B} (m : M A) (k : A -> M B) s s' e :
  m s = (s', Throw e) -> (m ≫= k) s = (s', Throw e).
Proof. intros H. unfold mbind, M_bind. by rewrite H. Qed.

Lemma try_catch_normal {A} (body : M A) handler s s' a :
  body s = (s', Normal a) -> try_catch body handler s = (s', Normal a).
Proof. intros H. unfold try_catch. by rewrite H. Qed.

Lemma try_catch_throw {A} (body : M A) handler s s' t :
  body s = (s', Throw (Raised t)) -> try_catch body handler s = handler t s'.
Proof. intros H. unfold try_catch. by rewrite H. Qed.

Lemma try_catch_diverges {A} (body : M A) handler s s' :
  body s = (s', Throw Diverges) -> try_catch body handler s = (s', Throw Diverges).
Proof. intros H. unfold try_catch. by rewrite H. Qed.

Lemma processFileContent_run conteudo arquivo s :
  processFileContent conteudo arquivo s
  = (logs s (fileLines (stats conteudo arquivo)), Normal (stats conteudo arquivo)).
Proof.
  unfold processFileContent.
  repeat (erewrite bind_run; [|apply emit_run]; rewrite ?logs_logs).
  reflexivity.
Qed.

(** ** File statistics *)

(** C6: the line counts of [processFileContent] add up, total lines = code
    lines + blank lines, none of the three is negative, and the blank lines
    are exactly the lines that are empty after [trim], the code lines
    exactly those that are not. *)
Theorem line_counts_add_up (conteudo : JS.jsstring) (arquivo : string) (s : State) :
  exists s' st,
    processFileContent conteudo arquivo s = (s', Normal st)
    /\ totalLinhas st = linhasCodigo st + linhasVazias st
    /\ 0 <= totalLinhas st /\ 0 <= linhasCodigo st /\ 0 <= linhasVazias st
    /\ linhasVazias st
       = Z.of_nat (List.length (List.filter (fun l => bool_decide (JS.trim l = []))
                                            (JS.split 10 conteudo)))
    /\ linhasCodigo st
       = Z.of_nat (List.length (List.filter (fun l => bool_decide (JS.trim l <> []))
                                            (JS.split 10 conteudo))).
Proof.
  eexists _, _. split; [apply processFileContent_run|].
  unfold stats; cbn [totalLinhas linhasCodigo linhasVazias].
  pose proof (filter_length_le blank (JS.split 10 conteudo)) as Hle.
  pose proof (filter_length_split blank (JS.split 10 conteudo)) as Hsplit.
  assert (List.filter (fun l => bool_decide (JS.trim l <> [])) (JS.split 10 conteudo)
          = List.filter (fun x => negb (blank x)) (JS.split 10 conteudo)) as ->.
  { apply List.filter_ext. intros l. unfold blank.
    by rewrite <- bool_decide_not. }
  repeat split; lia.
Qed.

(** C7: the byte size is never below the character count, and on text of
    ASCII characters only the two are equal. *)
Theorem byte_size_vs_characters (conteudo : JS.jsstring) (arquivo : string) (s : State) :
  exists s' st,
    processFileContent conteudo arquivo s = (s', Normal st)
    /\ caracteres st <= tamanhoArquivo st
    /\ (Forall (fun c => (c < 128)%N) conteudo -> tamanhoArquivo st = caracteres st).
Proof.
  eexists _, _. split; [apply processFileContent_run|].
  unfold stats; cbn [caracteres tamanhoArquivo].
  split; [apply byteLength_ge | apply byteLength_ascii].
Qed.

(** C10: there is always at least one line, and the empty text is one blank
    line. *)
Theorem at_least_one_line (conteudo : JS.jsstring) (arquivo : string) (s : State) :
  (exists s' st,
     processFileContent conteudo arquivo s = (s', Normal st)
     /\ (1 <= List.length (JS.split 10 conteudo))%nat
     /\ 1 <= totalLinhas st)
  /\ (exists s' st,
        processFileContent [] arquivo s = (s', Normal st)
        /\ totalLinhas st = 1 /\ linhasVazias st = 1 /\ linhasCodigo st = 0).
Proof.
  split; eexists _, _; (split; [apply processFileContent_run|]).
  - pose proof (split_length_pos 10 conteudo).
    unfold stats; cbn [totalLinhas]. lia.
  - by vm_compute.
Qed.

(** ** The byte formatter *)

Lemma floorLog_fuel_spec fuel : forall k x,
  2 <= k -> 1 <= x -> x < 2 ^ Z.of_nat fuel * k ->
  0 <= JS.floorLog_fuel fuel k x
  /\ k ^ JS.floorLog_fuel fuel k x <= x < k ^ (JS.floorLog_fuel fuel k x + 1).
Proof.
  induction fuel as [|fuel IH]; intros k x Hk Hx Hlt.
  - simpl in *. rewrite Z.pow_1_r. lia.
  - cbn [JS.floorLog_fuel]. destruct (Z.ltb_spec x k) as [Hxk|Hxk].
    + rewrite Z.pow_0_r, Z.pow_1_r. lia.
    + assert (Hq : 1 <= x / k) by (apply Z.div_le_lower_bound; lia).
      assert (Hdiv : k * (x / k) <= x < k * (x / k) + k).
      { pose proof (Z.div_mod x k ltac:(lia)).
        pose proof (Z.mod_pos_bound x k ltac:(lia)). lia. }
      assert (Hfuel : x / k < 2 ^ Z.of_nat fuel * k).
      { rewrite Nat2Z.inj_succ, Z.pow_succ_r in Hlt by lia.
        assert (0 < 2 ^ Z.of_nat fuel) by (apply Z.pow_pos_nonneg; lia).
        apply Z.div_lt_upper_bound; nia. }
      destruct (IH k (x / k) Hk Hq Hfuel) as (Hi & Hlo & Hhi).
      set (i := JS.floorLog_fuel fuel k (x / k)) in *.
      replace (1 + i + 1) with (Z.succ (i + 1)) by lia.
      replace (1 + i) with (Z.succ i) at 2 by lia.
      rewrite !Z.pow_succ_r by lia.
      rewrite Z.pow_add_r, Z.pow_1_r in Hhi |- * by lia.
      split; [lia|]. split; nia.
Qed.

(** [floorLog k x] is the exact floor of the base-[k] logarithm of [x]. *)
Lemma floorLog_spec k x :
  2 <= k -> 1 <= x ->
  0 <= JS.floorLog k x /\ k ^ JS.floorLog k x <= x < k ^ (JS.floorLog k x + 1).
Proof.
  intros Hk Hx. apply floorLog_fuel_spec; [done..|].
  rewrite Z2Nat.id by apply Z.log2_nonneg.
  pose proof (Z.log2_spec x ltac:(lia)) as [_ Hhi].
  rewrite Z.pow_succ_r in Hhi by apply Z.log2_nonneg.
  assert (0 < 2 ^ Z.log2 x) by (apply Z.pow_pos_nonneg; [lia | apply Z.log2_nonneg]).
  nia.
Qed.

Lemma floorLog_lt k x n :
  2 <= k -> 1 <= x -> 0 <= n -> x < k ^ n -> JS.floorLog k x < n.
Proof.
  intros Hk Hx Hn Hlt. destruct (floorLog_spec k x Hk Hx) as (Hi & Hlo & _).
  apply Z.nle_gt. intros Hle.
  assert (k ^ n <= k ^ JS.floorLog k x) by (apply Z.pow_le_mono_r; lia). lia.
Qed.

Lemma floorLog_ge k x n :
  2 <= k -> 1 <= x -> 0 <= n -> k ^ n <= x -> n <= JS.floorLog k x.
Proof.
  intros Hk Hx Hn Hle. destruct (floorLog_spec k x Hk Hx) as (Hi & _ & Hhi).
  apply Z.nlt_ge. intros Hlt.
  assert (k ^ (JS.floorLog k x + 1) <= k ^ n) by (apply Z.pow_le_mono_r; lia). lia.
Qed.

(** Below 1024^4 the unit is one of the table. *)
Lemma formatBytes_unit_listed bytes :
  bytes <> 0 -> Z.abs bytes < 1024 ^ 4 ->
  exists u, index sizes (JS.floorLog 1024 (Z.abs bytes)) = Some u /\ u ∈ sizes.
Proof.
  intros Hne Hlt.
  destruct (floorLog_spec 1024 (Z.abs bytes)) as (Hi & _); [lia..|].
  pose proof (floorLog_lt 1024 (Z.abs bytes) 4 ltac:(lia) ltac:(lia) ltac:(lia) Hlt).
  unfold index. destruct (Z.ltb_spec (JS.floorLog 1024 (Z.abs bytes)) 0); [lia|].
  assert (Z.to_nat (JS.floorLog 1024 (Z.abs bytes)) < 4)%nat as Hn by lia.
  destruct (Z.to_nat _) as [|[|[|[|?]]]]; try lia; simpl; eexists; (split; [done|]);
    unfold sizes; set_solver.
Qed.

(** From 1024^4 on the index is outside the table and the unit is rendered
    as [undefined]. *)
Lemma formatBytes_unit_undefined bytes :
  1024 ^ 4 <= Z.abs bytes ->
  formatBytes bytes
  = JS.toFixed (JS.number bytes
                / JS.number (1024 ^ JS.floorLog 1024 (Z.abs bytes))) 2 +:+ " undefined".
Proof.
  intros Hge.
  pose proof (floorLog_ge 1024 (Z.abs bytes) 4 ltac:(lia) ltac:(lia) ltac:(lia) Hge) as H4.
  unfold formatBytes. destruct (Z.eqb_spec bytes 0) as [->|_]; [simpl in Hge; lia|].
  cbv zeta. f_equal. f_equal.
  unfold index. destruct (Z.ltb_spec (JS.floorLog 1024 (Z.abs bytes)) 0); [lia|].
  assert (4 <= Z.to_nat (JS.floorLog 1024 (Z.abs bytes)))%nat as Hn by lia.
  destruct (Z.to_nat _) as [|[|[|[|?]]]]; try lia; reflexivity.
Qed.

(** C9: a byte count of 2^45 (32 TiB), and already 1024^4, is rendered with
    the unit [undefined]: the index computed from the logarithm is 4, one
    past the table B, KB, MB, GB. Zero and the counts below 1024^4 are
    rendered with a unit of the table. *)
Theorem formatBytes_past_the_table :
  formatBytes 35184372088832 = "32.00 undefined"
  /\ formatBytes 1099511627776 = "1.00 undefined"
  /\ index sizes (JS.floorLog 1024 (Z.abs 35184372088832)) = None
  /\ formatBytes 0 = "0 B"
  /\ formatBytes 1536 = "1.50 KB"
  /\ formatBytes (-1048576) = "-1.00 MB"
  /\ formatBytes 1099511627775 = "1024.00 GB".
Proof. vm_compute. repeat split. Qed.

(** ** Reducing to a minimum *)

Section LastMinimum.

Context {A : Type} (ltb : A -> A -> bool).

Hypothesis ltb_trans :
  forall a b c, ltb a b = true -> ltb b c = true -> ltb a c = true.
Hypothesis ltb_neg_trans :
  forall a b c, ltb a c = true -> ltb a b = true \/ ltb b c = true.

(** Reducing with [pick] selects an entry that nothing before it is below
    and that everything after it is strictly above: the last minimum. *)
Lemma fold_pick_last_minimum xs : forall x,
  exists pre f post,
    x :: xs = pre ++ f :: post
    /\ fold_left (pick ltb) xs x = f
    /\ Forall (fun r => ltb r f = false) pre
    /\ Forall (fun r => ltb f r = true) post.
Proof.
  induction xs as [|y xs IH] using rev_ind; intros x.
  - exists [], x, []. simpl. repeat split; constructor.
  - destruct (IH x) as (pre & f & post & Hsplit & Hfold & Hpre & Hpost).
    rewrite fold_left_app. simpl. rewrite Hfold. unfold pick.
    destruct (ltb f y) eqn:Hfy.
    + exists pre, f, (post ++ [y]). repeat split; [|done|].
      * by rewrite app_comm_cons, Hsplit, <- app_assoc.
      * apply Forall_app. split; [done|]. by repeat constructor.
    + exists (pre ++ f :: post), y, []. repeat split; [| |constructor].
      * by rewrite app_comm_cons, Hsplit.
      * apply Forall_app. split; [|constructor].
        -- eapply Forall_impl; [exact Hpre|]. intros r Hr. simpl in Hr.
           destruct (ltb r y) eqn:Hry; [|done].
           destruct (ltb_neg_trans r f y Hry); congruence.
        -- done.
        -- eapply Forall_impl; [exact Hpost|]. intros r Hr. simpl in Hr.
           destruct (ltb r y) eqn:Hry; [|done].
           pose proof (ltb_trans f r y Hr Hry). congruence.
Qed.

End LastMinimum.

Lemma timeLt_trans a b c : timeLt a b = true -> timeLt b c = true -> timeLt a c = true.
Proof.
  unfold timeLt. rewrite !bool_decide_eq_true. apply Qclt_trans.
Qed.

Lemma timeLt_neg_trans a b c :
  timeLt a c = true -> timeLt a b = true \/ timeLt b c = true.
Proof.
  unfold timeLt. rewrite !bool_decide_eq_true. intros Hac.
  destruct (Qclt_le_dec (executionTime a) (executionTime b)) as [?|Hle]; [by left|].
  right. eapply Qcle_lt_trans; eassumption.
Qed.

Lemma heapLt_trans a b c : heapLt a b = true -> heapLt b c = true -> heapLt a c = true.
Proof. unfold heapLt. rewrite !bool_decide_eq_true. lia. Qed.

Lemma heapLt_neg_trans a b c :
  heapLt a c = true -> heapLt a b = true \/ heapLt b c = true.
Proof. unfold heapLt. rewrite !bool_decide_eq_true. lia. Qed.

Lemma faster_pick prev curr : faster prev curr = pick timeLt prev curr.
Proof. reflexivity. Qed.

Lemma leaner_pick prev curr : leaner prev curr = pick heapLt prev curr.
Proof. reflexivity. Qed.

Lemma fold_left_ext_eq {A B} (f g : A -> B -> A) (l : list B) (a : A) :
  (forall x y, f x y = g x y) -> fold_left f l a = fold_left g l a.
Proof. intros H. revert a. induction l as [|y l IH]; intros a; simpl; [done|]. by rewrite H, IH. Qed.

(** The fastest entry has the least time; the entries before it are not
    faster and the entries after it are strictly slower. *)
Lemma fastest_split r rs :
  exists pre f post,
    r :: rs = pre ++ f :: post
    /\ JS.reduce faster (r :: rs) = Some f
    /\ Forall (fun x => (executionTime f <= executionTime x)%Qc) pre
    /\ Forall (fun x => (executionTime f < executionTime x)%Qc) post.
Proof.
  destruct (fold_pick_last_minimum timeLt timeLt_trans timeLt_neg_trans rs r)
    as (pre & f & post & Hsplit & Hfold & Hpre & Hpost).
  exists pre, f, post. repeat split; [done| | |].
  - simpl. f_equal. rewrite <- Hfold. by apply fold_left_ext_eq.
  - eapply Forall_impl; [exact Hpre|]. intros x Hx. simpl in Hx.
    unfold timeLt in Hx. apply bool_decide_eq_false in Hx. by apply Qcnot_lt_le.
  - eapply Forall_impl; [exact Hpost|]. intros x Hx. simpl in Hx.
    unfold timeLt in Hx. by apply bool_decide_eq_true in Hx.
Qed.

Lemma leanest_split r rs :
  exists pre m post,
    r :: rs = pre ++ m :: post
    /\ JS.reduce leaner (r :: rs) = Some m
    /\ Forall (fun x => heapUsed (memory m) <= heapUsed (memory x)) pre
    /\ Forall (fun x => heapUsed (memory m) < heapUsed (memory x)) post.
Proof.
  destruct (fold_pick_last_minimum heapLt heapLt_trans heapLt_neg_trans rs r)
    as (pre & f & post & Hsplit & Hfold & Hpre & Hpost).
  exists pre, f, post. repeat split; [done| | |].
  - simpl. f_equal. rewrite <- Hfold. by apply fold_left_ext_eq.
  - eapply Forall_impl; [exact Hpre|]. intros x Hx. simpl in Hx.
    unfold heapLt in Hx. apply bool_decide_eq_false in Hx. lia.
  - eapply Forall_impl; [exact Hpost|]. intros x Hx. simpl in Hx.
    unfold heapLt in Hx. apply bool_decide_eq_true in Hx. lia.
Qed.

(** ** The summary *)

Lemma showResult_run f m r s :
  showResult f m r s = (logs s (resultLines f m r), Normal tt).
Proof.
  unfold showResult, resultLines.
  repeat (erewrite bind_run; [|apply emit_run]; rewrite ?logs_logs).
  destruct (fileStats r); [by rewrite emit_run, logs_logs|].
  by rewrite app_nil_r.
Qed.

Lemma forEach_showResult_run f m rs : forall s,
  forEach rs (showResult f m) s = (logs s (flat_map (resultLines f m) rs), Normal tt).
Proof.
  induction rs as [|r rs IH]; intros s; simpl.
  - by rewrite logs_nil.
  - erewrite bind_run; [|apply showResult_run]. by rewrite IH, logs_logs.
Qed.

Lemma gets_run {A} (f : State -> A) s : gets f s = (s, Normal (f s)).
Proof. reflexivity. Qed.

(** On a non-empty result list [showSummary] prints the summary of the two
    entries its reducers select, and returns. *)
Lemma showSummary_run s r rs :
  results s = r :: rs ->
  showSummary s
  = (logs s (summaryLines (fold_left faster rs r) (fold_left leaner rs r) (r :: rs)),
     Normal tt).
Proof.
  intros Hrs. unfold showSummary.
  erewrite bind_run; [|apply gets_run]. rewrite Hrs.
  rewrite bool_decide_eq_false_2 by done.
  repeat (erewrite bind_run; [|apply emit_run]; rewrite ?logs_logs).
  unfold reduceM. cbn [JS.reduce].
  erewrite bind_run; [|reflexivity]. erewrite bind_run; [|reflexivity].
  erewrite bind_run; [|apply forEach_showResult_run]. rewrite logs_logs.
  repeat (erewrite bind_run; [|apply emit_run]; rewrite ?logs_logs).
  rewrite emit_run, logs_logs. unfold summaryLines.
  by rewrite <- !app_assoc.
Qed.

(** C5: on an empty result list [showSummary] prints the one line saying
    that no benchmark was executed and returns normally; the state is
    otherwise untouched, so no ranking is printed. *)
Theorem showSummary_empty (s : State) :
  results s = [] ->
  showSummary s = (logs s [Log (JS.LF +:+ " Nenhum benchmark foi executado.")], Normal tt).
Proof.
  intros Hrs. unfold showSummary.
  erewrite bind_run; [|apply gets_run]. rewrite Hrs.
  by rewrite bool_decide_eq_true_2.
Qed.

Lemma showSummary_empty_witness :
  results (newProcess 0 idle) = []
  /\ showSummary (newProcess 0 idle)
     = (logs (newProcess 0 idle) [Log (JS.LF +:+ " Nenhum benchmark foi executado.")],
        Normal tt).
Proof. split; [reflexivity | apply (showSummary_empty (newProcess 0 idle)); reflexivity]. Defined.

(** C1, as stated, fails: on two entries with equal time and equal heap the
    first minimal entry is A, and both reducers of [showSummary] select B,
    which the closing lines of the summary name. *)
Lemma tie_selects_later_entry :
  firstMinimum timeLt tied = Some (entry "A" 50 1000)
  /\ firstMinimum heapLt tied = Some (entry "A" 50 1000)
  /\ JS.reduce faster tied = Some (entry "B" 50 1000)
  /\ JS.reduce leaner tied = Some (entry "B" 50 1000)
  /\ JS.reduce faster tied <> firstMinimum timeLt tied
  /\ JS.reduce leaner tied <> firstMinimum heapLt tied
  /\ drop 9 (console (showSummary (set_results (fun _ => tied) (newProcess 0 idle))).1)
     = [ Log (JS.LF +:+ " Mais rápido: B");
         Log " Mais eficiente em memória: B" ].
Proof.
  repeat split; try reflexivity.
  - intros H. apply (f_equal (fmap name)) in H. vm_compute in H. discriminate.
  - intros H. apply (f_equal (fmap name)) in H. vm_compute in H. discriminate.
Qed.

(** C1, amended: each reducer selects an entry with the minimal value, and
    when several entries share that value it selects the last of them in
    session order: no entry before the selected one is below it and every
    entry after it is strictly above it. The summary printed is the one of
    these two entries. *)
Theorem winners_are_last_minima (r : Result) (rs : list Result) (s : State) :
  exists fastest mostMemoryEfficient,
    JS.reduce faster (r :: rs) = Some fastest
    /\ JS.reduce leaner (r :: rs) = Some mostMemoryEfficient
    /\ (exists pre post,
          r :: rs = pre ++ fastest :: post
          /\ Forall (fun x => (executionTime fastest <= executionTime x)%Qc) pre
          /\ Forall (fun x => (executionTime fastest < executionTime x)%Qc) post)
    /\ (exists pre post,
          r :: rs = pre ++ mostMemoryEfficient :: post
          /\ Forall (fun x => heapUsed (memory mostMemoryEfficient)
                              <= heapUsed (memory x)) pre
          /\ Forall (fun x => heapUsed (memory mostMemoryEfficient)
                              < heapUsed (memory x)) post)
    /\ showSummary (set_results (fun _ => r :: rs) s)
       = (logs (set_results (fun _ => r :: rs) s)
               (summaryLines fastest mostMemoryEfficient (r :: rs)),
          Normal tt).
Proof.
  destruct (fastest_split r rs) as (pre & f & post & Hs & Hf & Hpre & Hpost).
  destruct (leanest_split r rs) as (pre' & m & post' & Hs' & Hm & Hpre' & Hpost').
  exists f, m. repeat split; [done..| | |].
  - by exists pre, post.
  - by exists pre', post'.
  - simpl in Hf, Hm. injection Hf as <-. injection Hm as <-.
    by apply showSummary_run.
Qed.

(** ** Doubles *)

Lemma pow2_pos (e : Z) : (0 < 2 ^ e)%Q.
Proof. by apply Qpower_0_lt. Qed.

Lemma pow2_succ (e : Z) : (2 ^ (e + 1) == 2 * 2 ^ e)%Q.
Proof. rewrite Qpower_plus by done. change (2 ^ 1)%Q with 2%Q. ring. Qed.

Lemma pow2_inject (n : Z) : 0 <= n -> (2 ^ n == inject_Z (2 ^ n))%Q.
Proof. intros Hn. by rewrite Zpower_Qpower. Qed.

Lemma cross_bounds (q X P Pb qa qb : Q) :
  (X * Pb == P -> q * qb == qa -> P <= qa -> qa < 2 * P -> Pb <= qb -> qb < 2 * Pb ->
   0 < Pb -> 0 < X -> 0 < q -> q < 2 * X /\ X < 2 * q)%Q.
Proof.
  intros HX Hq H1 H2 H3 H4 H5 H6 H7. split.
  - apply (Qmult_lt_r _ _ (qb * Pb)); [nra|].
    assert (E1 : (q * (qb * Pb) == qa * Pb)%Q) by (rewrite <- Hq; ring).
    assert (E2 : (2 * X * (qb * Pb) == 2 * P * qb)%Q) by (rewrite <- HX; ring).
    rewrite E1, E2. nra.
  - apply (Qmult_lt_r _ _ (qb * Pb)); [nra|].
    assert (E1 : (2 * q * (qb * Pb) == 2 * qa * Pb)%Q) by (rewrite <- Hq; ring).
    assert (E2 : (X * (qb * Pb) == P * qb)%Q) by (rewrite <- HX; ring).
    rewrite E1, E2. nra.
Qed.

Lemma floorLog2_spec (q : Q) :
  (0 < q -> 2 ^ JS.floorLog2 q <= q /\ q < 2 ^ (JS.floorLog2 q + 1))%Q.
Proof.
  intros Hq. destruct q as [a b].
  assert (Ha : 0 < a) by (unfold Qlt in Hq; simpl in Hq; lia).
  pose proof (Z.log2_spec a Ha) as [Ha1 Ha2].
  pose proof (Z.log2_spec (Zpos b) ltac:(lia)) as [Hb1 Hb2].
  pose proof (Z.log2_nonneg a) as Hla. pose proof (Z.log2_nonneg (Zpos b)) as Hlb.
  rewrite Z.pow_succ_r in Ha2, Hb2 by done.
  unfold JS.floorLog2. cbn [Qnum Qden].
  set (la := Z.log2 a) in *. set (lb := Z.log2 (Zpos b)) in *.
  destruct (cross_bounds (a # b) (2 ^ (la - lb))%Q (inject_Z (2 ^ la)) (inject_Z (2 ^ lb))
              (inject_Z a) (inject_Z (Zpos b))) as [Hup Hlo].
  - rewrite <- !pow2_inject by done. rewrite <- Qpower_plus by done.
    by replace (la - lb + lb) with la by lia.
  - rewrite (Qmake_Qdiv a b). field. done.
  - by rewrite <- Zle_Qle.
  - rewrite <- (inject_Z_mult 2). by rewrite <- Zlt_Qlt.
  - by rewrite <- Zle_Qle.
  - rewrite <- (inject_Z_mult 2). by rewrite <- Zlt_Qlt.
  - rewrite <- pow2_inject by done. apply pow2_pos.
  - apply pow2_pos.
  - done.
  - destruct (Qle_bool (2 ^ (la - lb)) (a # b)) eqn:Htest.
    + apply Qle_bool_iff in Htest. split; [done|]. by rewrite pow2_succ.
    + assert (Hlt : (a # b < 2 ^ (la - lb))%Q).
      { apply Qnot_le_lt. intros H. apply Qle_bool_iff in H. congruence. }
      replace (la - lb - 1 + 1) with (la - lb) by lia. split; [|done].
      apply Qlt_le_weak. apply (Qmult_lt_l _ _ 2); [done|].
      rewrite <- pow2_succ. by replace (la - lb - 1 + 1) with (la - lb) by lia.
Qed.

Lemma roundHalfEven_nearest (x : Q) :
  (inject_Z (JS.roundHalfEven x) - (1 # 2) <= x <= inject_Z (JS.roundHalfEven x) + (1 # 2))%Q.
Proof.
  unfold JS.roundHalfEven. pose proof (Qfloor_le x) as Hlo. pose proof (Qlt_floor x) as Hhi.
  rewrite inject_Z_plus in Hhi. change (inject_Z 1) with 1%Q in Hhi.
  destruct (Qcompare_spec (x - inject_Z (Qfloor x)) (1 # 2)) as [E|E|E].
  - destruct (Z.even (Qfloor x)); [|rewrite inject_Z_plus; change (inject_Z 1) with 1%Q];
      split; lra.
  - split; lra.
  - rewrite inject_Z_plus. change (inject_Z 1) with 1%Q. split; lra.
Qed.

Lemma roundHalfEven_floor (x : Q) : Qfloor x <= JS.roundHalfEven x <= Qfloor x + 1.
Proof.
  unfold JS.roundHalfEven.
  destruct (Qcompare _ _); [destruct (Z.even _)|..]; lia.
Qed.

(** Integers are rounded to themselves. *)
Lemma roundHalfEven_Z (n : Z) : JS.roundHalfEven (inject_Z n) = n.
Proof.
  unfold JS.roundHalfEven. rewrite Qfloor_Z.
  destruct (Qcompare_spec (inject_Z n - inject_Z n) (1 # 2)) as [E|E|E]; [lra|done|lra].
Qed.

Lemma roundTo53_range (q : Q) :
  (0 < q -> 2 ^ JS.floorLog2 q <= JS.roundTo53 q <= 2 ^ (JS.floorLog2 q + 1))%Q.
Proof.
  intros Hq. destruct (floorLog2_spec q Hq) as [Hlo Hhi].
  unfold JS.roundTo53. set (e := JS.floorLog2 q) in *.
  set (x := (q * 2 ^ (52 - e))%Q).
  pose proof (pow2_pos (52 - e)) as Hp. pose proof (pow2_pos (e - 52)) as Hp'.
  assert (Hmul : (2 ^ e * 2 ^ (52 - e) == inject_Z (2 ^ 52))%Q).
  { rewrite <- Qpower_plus by done. by replace (e + (52 - e)) with 52 by lia. }
  assert (Hmul' : (2 ^ (e + 1) * 2 ^ (52 - e) == inject_Z (2 ^ 53))%Q).
  { rewrite <- Qpower_plus by done. by replace (e + 1 + (52 - e)) with 53 by lia. }
  assert (Hback : (inject_Z (2 ^ 52) * 2 ^ (e - 52) == 2 ^ e)%Q).
  { change (inject_Z (2 ^ 52)) with (2 ^ 52)%Q. rewrite <- Qpower_plus by done.
    by replace (52 + (e - 52)) with e by lia. }
  assert (Hback' : (inject_Z (2 ^ 53) * 2 ^ (e - 52) == 2 ^ (e + 1))%Q).
  { change (inject_Z (2 ^ 53)) with (2 ^ 53)%Q. rewrite <- Qpower_plus by done.
    by replace (53 + (e - 52)) with (e + 1) by lia. }
  assert (Hx1 : (inject_Z (2 ^ 52) <= x)%Q).
  { rewrite <- Hmul. subst x. by apply Qmult_le_compat_r; [|apply Qlt_le_weak]. }
  assert (Hx2 : (x < inject_Z (2 ^ 53))%Q).
  { rewrite <- Hmul'. subst x. by apply Qmult_lt_compat_r. }
  pose proof (roundHalfEven_floor x) as [Hn1 Hn2].
  assert (Hf1 : 2 ^ 52 <= Qfloor x).
  { rewrite <- (Qfloor_Z (2 ^ 52)). by apply Qfloor_resp_le. }
  assert (Hf2 : Qfloor x < 2 ^ 53).
  { apply Z.lt_nge. intros H. apply (Qlt_not_le _ _ Hx2).
    eapply Qle_trans; [|apply Qfloor_le]. by rewrite <- Zle_Qle. }
  split.
  - rewrite <- Hback. apply Qmult_le_compat_r; [|by apply Qlt_le_weak].
    rewrite <- Zle_Qle. lia.
  - rewrite <- Hback'. apply Qmult_le_compat_r; [|by apply Qlt_le_weak].
    rewrite <- Zle_Qle. lia.
Qed.

(** The rounded value is within half a unit in the last place. *)
Lemma roundTo53_error (q : Q) :
  (0 < q -> Qabs (JS.roundTo53 q - q) <= 2 ^ (JS.floorLog2 q - 53))%Q.
Proof.
  intros Hq. unfold JS.roundTo53. set (e := JS.floorLog2 q).
  pose proof (roundHalfEven_nearest (q * 2 ^ (52 - e))%Q) as [H1 H2].
  set (n := inject_Z (JS.roundHalfEven (q * 2 ^ (52 - e)))) in *.
  pose proof (pow2_pos (e - 52)) as Hp.
  assert (Hone : (2 ^ (52 - e) * 2 ^ (e - 52) == 1)%Q).
  { rewrite <- Qpower_plus by done. by replace (52 - e + (e - 52)) with 0 by lia. }
  assert (Hhalf : ((1 # 2) * 2 ^ (e - 52) == 2 ^ (e - 53))%Q).
  { change (1 # 2)%Q with (2 ^ (-1))%Q. rewrite <- Qpower_plus by done.
    by replace (-1 + (e - 52)) with (e - 53) by lia. }
  assert (Hq' : (q == q * 2 ^ (52 - e) * 2 ^ (e - 52))%Q).
  { rewrite <- Qmult_assoc, Hone. ring. }
  apply Qabs_Qle_condition.
  set (x := (q * 2 ^ (52 - e))%Q) in *. set (s := (2 ^ (e - 52))%Q) in *.
  set (h := (2 ^ (e - 53))%Q) in *.
  assert (Hq'' : (q == x * s)%Q) by exact Hq'.
  clearbody n x s h. clear Hq' Hone. split; nra.
Qed.

Lemma double_ge_one (q : Qc) : (1 <= q -> 1 <= JS.double q)%Qc.
Proof.
  intros Hq. unfold Qcle in Hq. change (this 1%Qc) with 1%Q in Hq.
  assert (Hpos : (0 < this q)%Q) by lra.
  unfold JS.double. destruct (Qcompare_spec (this q) 0) as [E|E|E]; [lra..|].
  unfold Qcle. cbn [this Q2Qc]. change (Qred 1) with 1%Q.
  destruct (floorLog2_spec (this q) Hpos) as [_ Hhi].
  destruct (roundTo53_range (this q) Hpos) as [Hlo _].
  assert (He : 0 <= JS.floorLog2 (this q)).
  { apply Z.le_ngt. intros Hneg.
    assert (2 ^ (JS.floorLog2 (this q) + 1) <= 2 ^ 0)%Q by (apply Qpower_le_compat_l; [lia | done]).
    change (2 ^ 0)%Q with 1%Q in *. lra. }
  assert (2 ^ 0 <= 2 ^ JS.floorLog2 (this q))%Q by (apply Qpower_le_compat_l; [lia | done]).
  change (2 ^ 0)%Q with 1%Q in *. rewrite Qred_correct. lra.
Qed.

Lemma double_one : JS.double 1 = 1%Qc.
Proof. apply Qc_is_canon. reflexivity. Qed.

(** The double of a positive number is within 2^-53 of it, relatively. *)
Lemma double_error (q : Qc) :
  (0 < q)%Qc ->
  (Qabs (this (JS.double q) - this q) <= this q * (1 # 9007199254740992))%Q.
Proof.
  intros Hq. unfold Qclt in Hq. change (this 0%Qc) with 0%Q in Hq.
  unfold JS.double. destruct (Qcompare_spec (this q) 0) as [E|E|E]; [lra..|].
  cbn [this Q2Qc]. rewrite Qred_correct.
  pose proof (roundTo53_error (this q) Hq) as Herr.
  destruct (floorLog2_spec (this q) Hq) as [Hlo _].
  set (e := JS.floorLog2 (this q)) in *.
  assert (Hsplit : (2 ^ (e - 53) == 2 ^ e * (1 # 9007199254740992))%Q).
  { unfold Z.sub. rewrite Qpower_plus by done. reflexivity. }
  rewrite Hsplit in Herr. eapply Qle_trans; [exact Herr|]. nra.
Qed.

(** ** Ratios *)

Lemma number_pos n : 0 < n -> (0 < JS.number n)%Qc.
Proof.
  intros Hn. unfold JS.number. rewrite <- Z2Qc_inj_0.
  exact (proj1 (Z2Qc_inj_lt _ _) Hn).
Qed.

Lemma Qc_div_pos (a b : Qc) : (0 < a -> 0 < b -> 0 < a / b)%Qc.
Proof. intros Ha Hb. apply Qcmult_pos_pos; [done | by apply Qcinv_pos]. Qed.

Lemma Qc_div_ge_one (a b : Qc) : (0 < b -> b <= a -> 1 <= a / b)%Qc.
Proof.
  intros Hb Hle. apply (Qcmult_lt_0_le_reg_r _ _ b Hb).
  rewrite Qcmult_1_l, test_field; [done|].
  intros ->. by apply Qclt_not_eq in Hb.
Qed.

Lemma Qc_div_self (a : Qc) : (0 < a -> a / a = 1)%Qc.
Proof.
  intros Ha. apply Qcmult_inv_r. intros ->. by apply Qclt_not_eq in Ha.
Qed.

(** [nearestScaled x f] is the nearest integer to [x * 10^f], the upper one
    at a tie. *)
Lemma nearestScaled_nearest (x : Qc) (f : nat) :
  (inject_Z (JS.nearestScaled x f) - (1 # 2)
   <= this x * inject_Z (10 ^ Z.of_nat f)
   < inject_Z (JS.nearestScaled x f) + (1 # 2))%Q.
Proof.
  unfold JS.nearestScaled.
  set (y := (this x * inject_Z (10 ^ Z.of_nat f) + (1 # 2))%Q).
  pose proof (Qfloor_le y) as Hlo. pose proof (Qlt_floor y) as Hhi.
  rewrite inject_Z_plus in Hhi. change (inject_Z 1) with 1%Q in Hhi.
  subst y. split; lra.
Qed.

Lemma nearestScaled_ge_100 (q : Qc) : (1 <= q)%Qc -> 100 <= JS.nearestScaled q 2.
Proof.
  intros Hq. unfold Qcle in Hq. change (this 1%Qc) with 1%Q in Hq.
  unfold JS.nearestScaled.
  change 100 with (Qfloor ((100 # 1) + (1 # 2))).
  apply Qfloor_resp_le.
  change (inject_Z (10 ^ Z.of_nat 2)) with (100 # 1)%Q. lra.
Qed.

Lemma toFixed_nonneg (q : Qc) (f : nat) :
  (0 <= q)%Qc -> JS.toFixed q f = JS.renderScaled (JS.nearestScaled q f) f.
Proof.
  intros Hq. unfold JS.toFixed. rewrite bool_decide_eq_false_2; [done|].
  by apply Qcle_not_lt.
Qed.

Lemma toFixed_one : JS.toFixed 1 2 = "1.00".
Proof. reflexivity. Qed.

Lemma tenTo21_below_range : (Qc_of_Z (10 ^ 21) < Qc_of_Z (2 ^ 1024))%Qc.
Proof. by apply Z2Qc_inj_lt. Qed.

(** A quotient of at least 1 whose double is below 10^21 is a finite
    double. *)
Lemma divide_finite (a b : Qc) :
  (0 < b -> b <= a -> JS.double (a / b) < Qc_of_Z (10 ^ 21) ->
   JS.divide a b = JS.Finite (JS.double (a / b))
   /\ 1 <= JS.double (a / b))%Qc.
Proof.
  intros Hb Hle Hbig.
  assert (Hone : (1 <= JS.double (a / b))%Qc).
  { by apply double_ge_one, Qc_div_ge_one. }
  split; [|done]. unfold JS.divide.
  rewrite bool_decide_eq_false_2 by (intros ->; by apply Qclt_not_eq in Hb).
  cbv zeta. rewrite bool_decide_eq_false_2.
  2:{ apply Qclt_not_le. eapply Qclt_trans; [exact Hbig | apply tenTo21_below_range]. }
  rewrite bool_decide_eq_false_2; [done|].
  apply Qclt_not_le. eapply Qclt_le_trans; [|exact Hone]. done.
Qed.

Lemma divide_self (a : Qc) : (0 < a)%Qc -> JS.divide a a = JS.Finite 1.
Proof.
  intros Ha.
  destruct (divide_finite a a Ha (Qcle_refl a)) as [-> _].
  - rewrite Qc_div_self, double_one by done. done.
  - by rewrite Qc_div_self, double_one.
Qed.
Lemma reduce_faster_least rs f :
  JS.reduce faster rs = Some f ->
  f ∈ rs /\ forall r, r ∈ rs -> (executionTime f <= executionTime r)%Qc.
Proof.
  destruct rs as [|r0 rs]; [done|]. intros Hf.
  destruct (fastest_split r0 rs) as (pre & f' & post & Hs & Hf' & Hpre & Hpost).
  rewrite Hf in Hf'. injection Hf' as <-. rewrite Hs. split; [set_solver|].
  intros r Hr. apply elem_of_app in Hr as [Hr|Hr].
  - by apply (proj1 (Forall_forall _ _) Hpre).
  - apply elem_of_cons in Hr as [->|Hr]; [apply Qcle_refl|].
    apply Qclt_le_weak. by apply (proj1 (Forall_forall _ _) Hpost).
Qed.

Lemma reduce_leaner_least rs m :
  JS.reduce leaner rs = Some m ->
  m ∈ rs /\ forall r, r ∈ rs -> heapUsed (memory m) <= heapUsed (memory r).
Proof.
  destruct rs as [|r0 rs]; [done|]. intros Hm.
  destruct (leanest_split r0 rs) as (pre & m' & post & Hs & Hm' & Hpre & Hpost).
  rewrite Hm in Hm'. injection Hm' as <-. rewrite Hs. split; [set_solver|].
  intros r Hr. apply elem_of_app in Hr as [Hr|Hr].
  - by apply (proj1 (Forall_forall _ _) Hpre).
  - apply elem_of_cons in Hr as [->|Hr]; [lia|].
    apply Z.lt_le_incl. by apply (proj1 (Forall_forall _ _) Hpost).
Qed.

(** C2: on results with positive times and positive heap in use, whose
    ratios stay below 10^21 (as those of any two measurements do), the
    summary prints for each entry its speed ratio and its memory ratio. The
    speed ratio is the entry's time divided by the fastest time, a double
    and so within 2^-53 of the quotient, relatively, printed with two
    decimals as the hundredths nearest to it; the memory ratio is the same
    of the entry's heap and the least heap. Every ratio is at least 1.00
    (its hundredths are at least 100), and the ratio of a winner against
    itself is the text 1.00. *)
Theorem ratios_at_least_one
    (rs : list Result) (fastest mostMemoryEfficient : Result) (s : State) :
  JS.reduce faster rs = Some fastest ->
  JS.reduce leaner rs = Some mostMemoryEfficient ->
  Forall (fun r => (0 < executionTime r)%Qc /\ 0 < heapUsed (memory r)) rs ->
  Forall (fun r =>
            (JS.double (executionTime r / executionTime fastest) < Qc_of_Z (10 ^ 21))%Qc
            /\ (JS.double (JS.number (heapUsed (memory r))
                           / JS.number (heapUsed (memory mostMemoryEfficient)))
                < Qc_of_Z (10 ^ 21))%Qc) rs ->
  showSummary (set_results (fun _ => rs) s)
  = (logs (set_results (fun _ => rs) s) (summaryLines fastest mostMemoryEfficient rs),
     Normal tt)
  /\ (forall result, result ∈ rs ->
        let time := (executionTime result / executionTime fastest)%Qc in
        let heap := (JS.number (heapUsed (memory result))
                     / JS.number (heapUsed (memory mostMemoryEfficient)))%Qc in
        let n := JS.nearestScaled (JS.double time) 2 in
        let m := JS.nearestScaled (JS.double heap) 2 in
        speedRatio result fastest = JS.renderScaled n 2
        /\ memoryRatio result mostMemoryEfficient = JS.renderScaled m 2
        /\ 100 <= n /\ 100 <= m
        /\ (inject_Z n - (1 # 2) <= this (JS.double time) * 100 < inject_Z n + (1 # 2))%Q
        /\ (inject_Z m - (1 # 2) <= this (JS.double heap) * 100 < inject_Z m + (1 # 2))%Q
        /\ (Qabs (this (JS.double time) - this time)
            <= this time * (1 # 9007199254740992))%Q
        /\ (Qabs (this (JS.double heap) - this heap)
            <= this heap * (1 # 9007199254740992))%Q
        /\ In (Log (" Tempo: " +:+ JS.toFixed (executionTime result) 2 +:+ "ms ("
                    +:+ JS.renderScaled n 2 +:+ "x)"))
              (summaryLines fastest mostMemoryEfficient rs)
        /\ In (Log (" Memória: " +:+ formatBytes (heapUsed (memory result)) +:+ " ("
                    +:+ JS.renderScaled m 2 +:+ "x)"))
              (summaryLines fastest mostMemoryEfficient rs))
  /\ speedRatio fastest fastest = "1.00"
  /\ memoryRatio mostMemoryEfficient mostMemoryEfficient = "1.00".
Proof.
  intros Hf Hm Hpos Hsmall.
  destruct (reduce_faster_least rs fastest Hf) as [Hfin Hfle].
  destruct (reduce_leaner_least rs mostMemoryEfficient Hm) as [Hmin Hmle].
  rewrite Forall_forall in Hpos, Hsmall.
  destruct (Hpos fastest Hfin) as [Hft _].
  destruct (Hpos mostMemoryEfficient Hmin) as [_ Hmh].
  assert (Hmq : (0 < JS.number (heapUsed (memory mostMemoryEfficient)))%Qc).
  { unfold JS.number. rewrite <- Z2Qc_inj_0. exact (proj1 (Z2Qc_inj_lt _ _) Hmh). }
  split; [|split; [|split]].
  - destruct rs as [|r rs']; [done|]. simpl in Hf, Hm.
    injection Hf as <-. injection Hm as <-. by apply showSummary_run.
  - intros r Hr. cbv zeta. destruct (Hsmall r Hr) as [Hs1 Hs2].
    destruct (Hpos r Hr) as [Hrt Hrh].
    assert (Hrq : (0 < JS.number (heapUsed (memory r)))%Qc).
    { unfold JS.number. rewrite <- Z2Qc_inj_0. exact (proj1 (Z2Qc_inj_lt _ _) Hrh). }
    destruct (divide_finite (executionTime r) (executionTime fastest))
      as [Hdt Ht]; [done | by apply Hfle | done |].
    destruct (divide_finite (JS.number (heapUsed (memory r)))
                (JS.number (heapUsed (memory mostMemoryEfficient))))
      as [Hdh Hh]; [done | | done |].
    { unfold JS.number. exact (proj1 (Z2Qc_inj_le _ _) (Hmle r Hr)). }
    assert (Hspeed : speedRatio r fastest
                     = JS.renderScaled
                         (JS.nearestScaled
                            (JS.double (executionTime r / executionTime fastest)) 2) 2).
    { unfold speedRatio, speedQuotient. rewrite Hdt. cbn [JS.toFixedQuotient].
      apply toFixed_nonneg. eapply Qcle_trans; [|exact Ht]. done. }
    assert (Hmem : memoryRatio r mostMemoryEfficient
                   = JS.renderScaled
                       (JS.nearestScaled
                          (JS.double (JS.number (heapUsed (memory r))
                                      / JS.number (heapUsed (memory mostMemoryEfficient)))) 2) 2).
    { unfold memoryRatio, memoryQuotient. rewrite Hdh. cbn [JS.toFixedQuotient].
      apply toFixed_nonneg. eapply Qcle_trans; [|exact Hh]. done. }
    split; [exact Hspeed|]. split; [exact Hmem|].
    split; [by apply nearestScaled_ge_100|]. split; [by apply nearestScaled_ge_100|].
    split; [apply (nearestScaled_nearest _ 2)|]. split; [apply (nearestScaled_nearest _ 2)|].
    split; [by apply double_error, Qc_div_pos|].
    split; [by apply double_error, Qc_div_pos|].
    rewrite <- Hspeed, <- Hmem. unfold summaryLines.
    split; apply in_or_app; right; apply in_or_app; left;
      apply in_flat_map; exists r; (split; [by apply list_elem_of_In|]);
      unfold resultLines; simpl; tauto.
  - unfold speedRatio, speedQuotient. by rewrite divide_self.
  - unfold memoryRatio, memoryQuotient. by rewrite divide_self.
Qed.

Lemma ratios_at_least_one_witness :
  JS.reduce faster sample = Some (entry "B" 50 2000)
  /\ JS.reduce leaner sample = Some (entry "A" 100 1000)
  /\ speedRatio (entry "A" 100 1000) (entry "B" 50 2000) = "2.00"
  /\ 100 <= JS.nearestScaled
              (JS.double (executionTime (entry "A" 100 1000)
                          / executionTime (entry "B" 50 2000)))%Qc 2
  /\ In (Log " Tempo: 100.00ms (2.00x)")
        (summaryLines (entry "B" 50 2000) (entry "A" 100 1000) sample)
  /\ speedRatio (entry "B" 50 2000) (entry "B" 50 2000) = "1.00"
  /\ memoryRatio (entry "A" 100 1000) (entry "A" 100 1000) = "1.00".
Proof.
  assert (Hpos : Forall (fun r => (0 < executionTime r)%Qc /\ 0 < heapUsed (memory r)) sample).
  { repeat constructor. }
  assert (Hsmall :
    Forall (fun r =>
              (JS.double (executionTime r / executionTime (entry "B" 50 2000))
               < Qc_of_Z (10 ^ 21))%Qc
              /\ (JS.double (JS.number (heapUsed (memory r))
                             / JS.number (heapUsed (memory (entry "A" 100 1000))))
                  < Qc_of_Z (10 ^ 21))%Qc) sample).
  { repeat constructor. }
  destruct (ratios_at_least_one sample (entry "B" 50 2000) (entry "A" 100 1000)
              (newProcess 0 idle) eq_refl eq_refl Hpos Hsmall) as (_ & Hall & Hf & Hm).
  destruct (Hall (entry "A" 100 1000)) as (_ & _ & Hn & _ & _ & _ & _ & _ & Hline & _);
    [by left|].
  split; [reflexivity|]. split; [reflexivity|]. split; [reflexivity|].
  split; [exact Hn|]. split; [exact Hline|]. split; [exact Hf | exact Hm].
Defined.

(** The ratios are those of the doubles: 201 against 200 bytes is the
    double just below 1.005 and is printed as 1.00, and so is 1.005 ms
    against 1 ms; a zero divisor gives Infinity or NaN. *)
Example ratios_round_the_double :
  memoryRatio (entry "A" 1 201) (entry "B" 1 200) = "1.00"
  /\ JS.toFixed (Q2Qc (Qmake 201 200)) 2 = "1.01"
  /\ (this (JS.double (Q2Qc (Qmake 201 200))) < Qmake 201 200)%Q
  /\ this (JS.double (Q2Qc (Qmake 1 10))) = Qmake 3602879701896397 36028797018963968
  /\ memoryRatio (entry "A" 1 201) (entry "B" 1 0) = "Infinity"
  /\ memoryRatio (entry "A" 1 0) (entry "B" 1 0) = "NaN".
Proof. vm_compute. repeat split. Qed.

(** The specification's example: B is the fastest with ratio 1.00 and A has
    speed ratio 2.00; A uses the least heap with ratio 1.00 and B has
    memory ratio 2.00. *)
Example summary_of_sample :
  (showSummary (set_results (fun _ => sample) (newProcess 0 idle))).2 = Normal tt
  /\ console (showSummary (set_results (fun _ => sample) (newProcess 0 idle))).1
     = [ Log (JS.LF +:+ JS.repeat "=" 50);
         Log " RESUMO COMPARATIVO";
         Log (JS.repeat "=" 50);
         Log (JS.LF +:+ "  A:");
         Log " Tempo: 100.00ms (2.00x)";
         Log " Memória: 1000.00 B (1.00x)";
         Log (JS.LF +:+ "  B:");
         Log " Tempo: 50.00ms (1.00x)";
         Log " Memória: 1.95 KB (2.00x)";
         Log (JS.LF +:+ " Mais rápido: B");
         Log " Mais eficiente em memória: A" ].
Proof. split; reflexivity. Qed.

(** ** One run *)

Ltac step lem := erewrite bind_run; [|lem]; cbv beta.

Lemma modify_run f s : modify f s = (f s, Normal tt).
Proof. reflexivity. Qed.

Lemma showMemoryUsage_run memoria diff s :
  showMemoryUsage memoria (Some diff) s = (logs s (memoryLines memoria diff), Normal tt).
Proof.
  unfold showMemoryUsage.
  repeat (step ltac:(apply emit_run); rewrite ?logs_logs).
  by rewrite emit_run, logs_logs.
Qed.

Lemma readMessage_run e s : readMessage (Readable e) s = (s, Normal (message e)).
Proof. reflexivity. Qed.

Lemma readMessage_throw raised s :
  readMessage (Unreadable raised) s = (s, Throw (Raised raised)).
Proof. reflexivity. Qed.

(** ** The module cache *)


Lemma cacheAfter_mono m rs : forall cache,
  m ∈ cache -> m ∈ cacheAfter rs cache.
Proof.
  induction rs as [|r rs IH]; intros cache Hin; cbn [cacheAfter]; [done|].
  destruct (bool_decide (r_module r ∈ cache)); [by apply IH|].
  apply IH. destruct (r_loads r); [by apply elem_of_union_r | done].
Qed.


(** Entering a module in the cache it was just taken out of. *)
Lemma readding_key (key : string) (cache : gset string) :
  {[key]} ∪ cache ∖ {[key]} = {[key]} ∪ cache.
Proof.
  apply set_eq. intros x.
  rewrite !elem_of_union, elem_of_difference, elem_of_singleton.
  destruct (decide (x = key)); tauto.
Qed.




Section Run.

Variable host : Host.

Lemma analyzeFile_unreadable arquivo e s :
  readFileSync host arquivo = Throw e ->
  analyzeFile host arquivo s = (logs s [warning arquivo e], Normal None).
Proof.
  intros Hread. unfold analyzeFile.
  erewrite try_catch_throw.
  2:{ erewrite bind_throw; [reflexivity|]. by rewrite Hread. }
  step ltac:(apply readMessage_run).
  by step ltac:(apply emit_run).
Qed.

Lemma analyzeFile_readable arquivo conteudo s :
  readFileSync host arquivo = Normal conteudo ->
  analyzeFile host arquivo s
  = (logs s (fileLines (stats conteudo arquivo)), Normal (Some (stats conteudo arquivo))).
Proof.
  intros Hread. unfold analyzeFile.
  erewrite try_catch_normal; [reflexivity|].
  step ltac:(rewrite Hread; reflexivity).
  by step ltac:(apply processFileContent_run).
Qed.

(** [analyzeFile] never throws. *)
Lemma analyzeFile_returns arquivo s :
  exists s' fs, analyzeFile host arquivo s = (s', Normal fs)
                /\ results s' = results s /\ evaluated s' = evaluated s
                /\ require_cache s' = require_cache s.
Proof.
  destruct (readFileSync host arquivo) as [conteudo|e] eqn:Hread.
  - eexists _, _. split; [by apply analyzeFile_readable|done].
  - eexists _, _. split; [by apply analyzeFile_unreadable|done].
Qed.

(** [require] of a module that is not in the cache evaluates it; the module
    stays in the cache unless its evaluation throws. *)
Lemma require_fresh id key s :
  require_resolve host id = Normal key ->
  key ∉ require_cache s ->
  require host id s
  = match u_error (unit_of host key (timesEvaluated key s)) with
    | None => (loaded host key s, Normal tt)
    | Some (Raised t) =>
        (set_require_cache (fun c => c ∖ {[key]}) (loaded host key s), Throw (Raised t))
    | Some Diverges => (loaded host key s, Throw Diverges)
    end.
Proof.
  intros Hkey Hfresh. unfold require.
  step ltac:(rewrite Hkey; reflexivity).
  step ltac:(apply gets_run).
  rewrite bool_decide_eq_false_2 by done.
  step ltac:(apply modify_run).
  unfold try_catch, evaluate, loaded. cbn.
  by destruct (u_error _) as [[]|].
Qed.

(** [require] of a module that is in the cache does not evaluate it: the
    state is unchanged. *)
Lemma require_cached id key s :
  require_resolve host id = Normal key ->
  key ∈ require_cache s ->
  require host id s = (s, Normal tt).
Proof.
  intros Hkey Hin. unfold require.
  step ltac:(rewrite Hkey; reflexivity).
  step ltac:(apply gets_run).
  by rewrite bool_decide_eq_true_2.
Qed.

Lemma prepared_fresh name key s : key ∉ require_cache (prepared host name key s).
Proof. unfold prepared. simpl. rewrite elem_of_difference, elem_of_singleton. tauto. Qed.

Lemma runBenchmark_access_fails name filePath s e :
  access host filePath = Throw e ->
  runBenchmark host name filePath s = (logs s (header host name :: errorLines filePath e), Normal tt).
Proof.
  intros Hacc. unfold runBenchmark.
  step ltac:(apply emit_run).
  erewrite try_catch_throw.
  2:{ erewrite bind_throw; [reflexivity|]. rewrite Hacc. reflexivity. }
  step ltac:(apply readMessage_run).
  step ltac:(apply emit_run). by rewrite emit_run, !logs_logs.
Qed.

Lemma runBenchmark_resolve_fails name filePath s e :
  access host filePath = Normal tt ->
  require_resolve host (path_resolve host filePath) = Throw e ->
  runBenchmark host name filePath s
  = (logs s ([header host name; Time ("Tempo " +:+ name)] ++ errorLines filePath e), Normal tt).
Proof.
  intros Hacc Hkey. unfold runBenchmark.
  step ltac:(apply emit_run).
  erewrite try_catch_throw.
  2:{ step ltac:(rewrite Hacc; reflexivity).
      step ltac:(apply gets_run). step ltac:(apply gets_run).
      step ltac:(apply emit_run).
      erewrite bind_throw; [reflexivity|]. rewrite Hkey. reflexivity. }
  step ltac:(apply readMessage_run).
  step ltac:(apply emit_run). by rewrite emit_run, !logs_logs.
Qed.

(** The body of the [try] block up to the failing [require]. *)
Ltac to_require Hacc Hkey :=
  step ltac:(rewrite Hacc; reflexivity);
  step ltac:(apply gets_run); step ltac:(apply gets_run);
  step ltac:(apply emit_run);
  step ltac:(rewrite Hkey; reflexivity);
  step ltac:(apply modify_run).

Lemma runBenchmark_unit_raises name filePath s key e :
  access host filePath = Normal tt ->
  require_resolve host (path_resolve host filePath) = Normal key ->
  u_error (unit_of host key (timesEvaluated key s)) = Some (Raised (Readable e)) ->
  runBenchmark host name filePath s
  = (logs (set_require_cache (fun c => c ∖ {[key]}) (loaded host key (prepared host name key s)))
          (errorLines filePath e),
     Normal tt).
Proof.
  intros Hacc Hkey Herr. unfold runBenchmark.
  step ltac:(apply emit_run).
  erewrite try_catch_throw.
  2:{ to_require Hacc Hkey.
      erewrite bind_throw; [reflexivity|].
      rewrite (require_fresh _ key) by (done || apply (prepared_fresh name)).
      change (timesEvaluated key _) with (timesEvaluated key s).
      rewrite Herr. reflexivity. }
  step ltac:(apply readMessage_run).
  step ltac:(apply emit_run). by rewrite emit_run, !logs_logs.
Qed.

(** When the value the unit throws has no [message] to read, the handler
    itself throws, before it has printed anything. *)
Lemma runBenchmark_unit_unreadable name filePath s key raised :
  access host filePath = Normal tt ->
  require_resolve host (path_resolve host filePath) = Normal key ->
  u_error (unit_of host key (timesEvaluated key s)) = Some (Raised (Unreadable raised)) ->
  runBenchmark host name filePath s
  = (set_require_cache (fun c => c ∖ {[key]}) (loaded host key (prepared host name key s)),
     Throw (Raised raised)).
Proof.
  intros Hacc Hkey Herr. unfold runBenchmark.
  step ltac:(apply emit_run).
  erewrite try_catch_throw.
  2:{ to_require Hacc Hkey.
      erewrite bind_throw; [reflexivity|].
      rewrite (require_fresh _ key) by (done || apply (prepared_fresh name)).
      change (timesEvaluated key _) with (timesEvaluated key s).
      rewrite Herr. reflexivity. }
  erewrite bind_throw; [|apply readMessage_throw].
  unfold prepared, header. by rewrite logs_logs.
Qed.

(** When the unit does not end, neither does the run. *)
Lemma runBenchmark_unit_diverges name filePath s key :
  access host filePath = Normal tt ->
  require_resolve host (path_resolve host filePath) = Normal key ->
  u_error (unit_of host key (timesEvaluated key s)) = Some Diverges ->
  runBenchmark host name filePath s
  = (loaded host key (prepared host name key s), Throw Diverges).
Proof.
  intros Hacc Hkey Herr. unfold runBenchmark.
  step ltac:(apply emit_run).
  erewrite try_catch_diverges; cycle 1.
  { to_require Hacc Hkey.
    erewrite bind_throw; [reflexivity|].
    rewrite (require_fresh _ key) by (done || apply (prepared_fresh name)).
    change (timesEvaluated key _) with (timesEvaluated key s).
    rewrite Herr. reflexivity. }
  unfold prepared, header. by rewrite logs_logs.
Qed.

Lemma runBenchmark_unit_returns name filePath s key s' fs :
  access host filePath = Normal tt ->
  require_resolve host (path_resolve host filePath) = Normal key ->
  u_error (unit_of host key (timesEvaluated key s)) = None ->
  analyzeFile host filePath (measuredState host name key s) = (s', Normal fs) ->
  runBenchmark host name filePath s
  = (set_results (fun rs => rs ++ [measured host name key s fs]) s', Normal tt).
Proof.
  intros Hacc Hkey Herr Hfs. unfold runBenchmark.
  step ltac:(apply emit_run).
  erewrite try_catch_normal; [reflexivity|].
  to_require Hacc Hkey.
  erewrite bind_run; cycle 1.
  { rewrite (require_fresh _ key) by (done || apply (prepared_fresh name)).
    change (timesEvaluated key _) with (timesEvaluated key s).
    rewrite Herr. reflexivity. }
  cbv beta.
  step ltac:(apply emit_run).
  step ltac:(apply gets_run). step ltac:(apply gets_run).
  step ltac:(apply showMemoryUsage_run). rewrite !logs_logs.
  erewrite bind_run; [|exact Hfs]. reflexivity.
Qed.

End Run.

(** The modules one evaluation of the unit [key] loads, itself first, when
    the run starts in state [s]. *)
Lemma evaluated_loaded host name key s :
  evaluated (loaded host key (prepared host name key s))
  = evaluated s
    ++ key :: loadedBy (u_requires (unit_of host key (timesEvaluated key s)))
                ({[key]} ∪ require_cache s).
Proof.
  unfold loaded. cbn [evaluated prepared set_require_cache logs set_console require_cache].
  change (timesEvaluated key _) with (timesEvaluated key s).
  by rewrite readding_key.
Qed.

Lemma require_cache_loaded host name key s :
  require_cache (loaded host key (prepared host name key s))
  = cacheAfter (u_requires (unit_of host key (timesEvaluated key s)))
      ({[key]} ∪ require_cache s).
Proof.
  unfold loaded. cbn [evaluated prepared set_require_cache logs set_console require_cache].
  change (timesEvaluated key _) with (timesEvaluated key s).
  by rewrite readding_key.
Qed.



(** C3: a unit whose top-level code throws a value that has no [message]
    to read, as [throw null] does, is not skipped: reading [error.message]
    in the handler throws in turn, so the run prints neither of its two
    error lines and ends by throwing to its caller, and whatever the caller
    would have done after the run is not done. The result list is
    unchanged. *)
Theorem unreadable_error_escapes_the_run
    (host : Host) (label filePath key : string) (raised : Thrown) (s : State) :
  access host filePath = Normal tt ->
  require_resolve host (path_resolve host filePath) = Normal key ->
  u_error (unit_of host key (timesEvaluated key s)) = Some (Raised (Unreadable raised)) ->
  exists s',
    runBenchmark host label filePath s = (s', Throw (Raised raised))
    /\ results s' = results s
    /\ console s'
       = console s ++ [header host label; Time ("Tempo " +:+ label)]
         ++ u_output (unit_of host key (timesEvaluated key s))
    /\ (forall next : M unit,
          (runBenchmark host label filePath ;; next) s = (s', Throw (Raised raised))).
Proof.
  intros Hacc Hkey Herr. eexists.
  split; [by eapply runBenchmark_unit_unreadable|].
  split; [reflexivity|]. split.
  - cbn [logs set_console set_require_cache loaded prepared console].
    change (timesEvaluated key _) with (timesEvaluated key s).
    by rewrite <- !app_assoc.
  - intros next. erewrite bind_throw; [reflexivity|].
    by eapply runBenchmark_unit_unreadable.
Qed.


(** C8: when the unit has run and the artifact cannot be read afterwards,
    the run still appends its result, with the measured time and memory
    and with no file statistics; the failed read is reported by a
    warning. *)
Theorem unreadable_artifact_keeps_result
    (host : Host) (name filePath key : string) (s : State) (e : JsError) :
  access host filePath = Normal tt ->
  require_resolve host (path_resolve host filePath) = Normal key ->
  u_error (unit_of host key (timesEvaluated key s)) = None ->
  readFileSync host filePath = Throw e ->
  exists s' printed,
    let u := unit_of host key (timesEvaluated key s) in
    runBenchmark host name filePath s = (s', Normal tt)
    /\ results s'
       = results s
         ++ [ {| name := name;
                 executionTime :=
                   JS.double (JS.numberOfBigInt (u_elapsed u) / JS.number 1000000)%Qc;
                 memory := u_memory u;
                 memoryDiff :=
                   {| rss := rss (u_memory u) - rss (memoryUsage s);
                      heapTotal := heapTotal (u_memory u) - heapTotal (memoryUsage s);
                      heapUsed := heapUsed (u_memory u) - heapUsed (memoryUsage s) |};
                 fileStats := None |} ]
    /\ List.length (results s') = S (List.length (results s))
    /\ console s' = console s ++ printed ++ [warning filePath e].
Proof.
  intros Hacc Hkey Herr Hread.
  set (u := unit_of host key (timesEvaluated key s)).
  eexists _, ([header host name; Time ("Tempo " +:+ name)] ++ u_output u
              ++ TimeEnd ("Tempo " +:+ name)
                 :: memoryLines (u_memory u)
                      {| rss := rss (u_memory u) - rss (memoryUsage s);
                         heapTotal := heapTotal (u_memory u) - heapTotal (memoryUsage s);
                         heapUsed := heapUsed (u_memory u) - heapUsed (memoryUsage s) |}).
  cbv zeta. split.
  { eapply runBenchmark_unit_returns; [done..|]. by apply analyzeFile_unreadable. }
  cbn [set_results results logs set_console measuredState loaded prepared console].
  split; [|split].
  - unfold measured. by rewrite Z.add_simpl_l.
  - rewrite length_app. simpl. lia.
  - change (console (prepared host name key s))
      with (console s ++ [header host name; Time ("Tempo " +:+ name)]).
    change (timesEvaluated key (prepared host name key s)) with (timesEvaluated key s).
    fold u. by rewrite <- !app_assoc.
Qed.

(** ** Concrete runs *)

Lemma unreadable_error_escapes_the_run_witness :
  exists s',
    runBenchmark nullHost "Estruturado" "./estruturado.js" (newProcess 0 idle)
    = (s', Throw (Raised (Readable
         {| message := "Cannot read properties of null (reading 'message')" |})))
    /\ results s' = []
    /\ console s' = [header nullHost "Estruturado"; Time "Tempo Estruturado"].
Proof.
  destruct (unreadable_error_escapes_the_run nullHost "Estruturado" "./estruturado.js"
              "/work/estruturado.js"
              (Readable {| message := "Cannot read properties of null (reading 'message')" |})
              (newProcess 0 idle) eq_refl eq_refl eq_refl)
    as (s' & Hrun & Hres & Hcon & _).
  exists s'. split; [exact Hrun|]. split; [exact Hres | exact Hcon].
Defined.

(** The default driver when [./estruturado.js] is the one line
    [throw null]: the first run throws a TypeError out of its handler, no
    error line is printed, [./poo.js] is never run and no summary is
    printed. *)
Example driver_stops_at_throw_null :
  let run := exemploDeUso nullHost (newProcess 0 idle) in
  run.2 = Throw (Raised (Readable
            {| message := "Cannot read properties of null (reading 'message')" |}))
  /\ results run.1 = []
  /\ evaluated run.1 = ["/work/estruturado.js"]
  /\ console run.1
     = [ Log (" Iniciando comparação entre paradigmas de programação..." +:+ JS.LF);
         Log (JS.LF +:+ "=== ESTRUTURADO ===");
         Time "Tempo Estruturado" ].
Proof. vm_compute. repeat split. Qed.



Lemma unreadable_artifact_keeps_result_witness :
  exists s',
    runBenchmark demoHost "Ilegível" "./unreadable.js" (newProcess 0 idle)
    = (s', Normal tt)
    /\ List.length (results s') = 1%nat.
Proof.
  destruct (unreadable_artifact_keeps_result demoHost "Ilegível" "./unreadable.js"
              "/work/unreadable.js" (newProcess 0 idle)
              {| message := "EACCES: permission denied, open './unreadable.js'" |}
              eq_refl eq_refl eq_refl eq_refl)
    as (s' & printed & Hrun & _ & Hlen & _).
  exists s'. split; [exact Hrun | exact Hlen].
Defined.

Lemma byte_size_vs_characters_witness :
  Forall (fun c => (c < 128)%N) [97; 10; 98]%N
  /\ tamanhoArquivo (stats [97; 10; 98]%N "a.js") = caracteres (stats [97; 10; 98]%N "a.js").
Proof.
  assert (H : Forall (fun c => (c < 128)%N) [97; 10; 98]%N) by (repeat constructor).
  split; [exact H|].
  destruct (byte_size_vs_characters [97; 10; 98]%N "a.js" (newProcess 0 idle))
    as (s' & st & Hrun & _ & Heq).
  rewrite processFileContent_run in Hrun. injection Hrun as _ <-.
  exact (Heq H).
Defined.

(** The default driver on this host: the first run fails and is skipped,
    the second one is measured and summarised. *)
Example driver_skips_failed_run :
  (exemploDeUso demoHost (newProcess 0 idle)).2 = Normal tt
  /\ List.map (fun r => (name r, fileStats r))
       (results (exemploDeUso demoHost (newProcess 0 idle)).1)
     = [ ("POO", Some {| arquivo := "poo.js"; totalLinhas := 3; linhasCodigo := 2;
                         linhasVazias := 1; caracteres := 14; tamanhoArquivo := 14 |}) ]
  /\ evaluated (exemploDeUso demoHost (newProcess 0 idle)).1 = ["/work/poo.js"].
Proof. vm_compute. repeat split. Qed.

(** A unit that throws an error is skipped and the next unit is still
    measured. *)
Example failing_unit_then_good_unit :
  let run :=
    (runBenchmark demoHost "Quebrado" "./broken.js" ;;
     runBenchmark demoHost "POO" "./poo.js") (newProcess 0 idle) in
  run.2 = Normal tt
  /\ List.map name (results run.1) = ["POO"]
  /\ evaluated run.1 = ["/work/broken.js"; "/work/poo.js"]
  /\ List.filter (fun ev => match ev with Error _ => true | _ => false end) (console run.1)
     = [ Error " Erro ao executar './broken.js': dados.csv not found";
         Error " Certifique-se de que o arquivo existe e é válido." ].
Proof. vm_compute. repeat split. Qed.

(** Two runs of the same artifact: the unit is evaluated both times, and
    the second evaluation sees the trace the first one left. *)
Example second_run_sees_first :
  let run :=
    (runBenchmark demoHost "POO" "./poo.js" ;;
     runBenchmark demoHost "POO" "./poo.js") (newProcess 0 idle) in
  run.2 = Normal tt
  /\ evaluated run.1 = ["/work/poo.js"; "/work/poo.js"]
  /\ List.map (fun r => heapUsed (memory r)) (results run.1) = [4200000; 4200001]
  /\ List.filter (fun ev => match ev with
                            | Log text => String.prefix "evaluated before" text
                            | _ => false
                            end) (console run.1)
     = [ Log "evaluated before: 0"; Log "evaluated before: 1" ].
Proof. vm_compute. repeat split. Qed.

(** Without the deletion from [require.cache] the second [require] of a
    module would evaluate nothing. *)
Example require_twice_evaluates_once :
  evaluated ((require demoHost "/work/poo.js" ;; require demoHost "/work/poo.js")
               (newProcess 0 idle)).1
  = ["/work/poo.js"].
Proof. vm_compute. reflexivity. Qed.

(** * Further properties of the runner *)

(** ** The byte formatter, inside its table *)

Lemma Qc_div_opp (a b : Qc) : (- a / b = - (a / b))%Qc.
Proof. unfold Qcdiv. ring. Qed.

Lemma toFixed_opp (q : Qc) (f : nat) :
  (0 < q)%Qc -> JS.toFixed (- q) f = "-" +:+ JS.toFixed q f.
Proof.
  intros Hq. unfold JS.toFixed.
  rewrite bool_decide_eq_true_2.
  - rewrite Qcopp_involutive.
    rewrite bool_decide_eq_false_2; [done|].
    apply Qcle_not_lt. by apply Qclt_le_weak.
  - apply Qclt_minus_iff. by rewrite Qcplus_0_l, Qcopp_involutive.
Qed.

(** A negative count is rendered as the minus sign followed by the
    rendering of its absolute value. *)
Lemma formatBytes_opp bytes :
  0 < bytes -> formatBytes (- bytes) = "-" +:+ formatBytes bytes.
Proof.
  intros Hb. unfold formatBytes.
  destruct (Z.eqb_spec (- bytes) 0); [lia|].
  destruct (Z.eqb_spec bytes 0); [lia|].
  cbv zeta. rewrite Z.abs_opp.
  set (i := JS.floorLog 1024 (Z.abs bytes)).
  assert (Hi : 0 <= i).
  { destruct (floorLog_spec 1024 (Z.abs bytes)) as [H _]; [lia..|done]. }
  unfold JS.number at 1. rewrite Z2Qc_inj_opp. fold (JS.number bytes).
  rewrite Qc_div_opp, toFixed_opp; [done|].
  apply Qc_div_pos; apply number_pos; [done|].
  apply Z.pow_pos_nonneg; lia.
Qed.

(** X1: for every non-zero integer byte count below 1024^4 in absolute
    value, [formatBytes] scales by the power 1024^i with
    1024^i <= |bytes| < 1024^(i+1), renders the quotient with two decimals
    and appends the i-th unit of B, KB, MB, GB. *)
Theorem formatBytes_within_table (bytes : Z) :
  bytes <> 0 -> Z.abs bytes < 1024 ^ 4 ->
  exists i u,
    0 <= i <= 3
    /\ sizes !! Z.to_nat i = Some u
    /\ 1024 ^ i <= Z.abs bytes < 1024 ^ (i + 1)
    /\ formatBytes bytes
       = JS.toFixed (JS.number bytes / JS.number (1024 ^ i)) 2 +:+ " " +:+ u.
Proof.
  intros Hne Hlt.
  destruct (floorLog_spec 1024 (Z.abs bytes)) as (Hi & Hlo & Hhi); [lia..|].
  pose proof (floorLog_lt 1024 (Z.abs bytes) 4 ltac:(lia) ltac:(lia) ltac:(lia) Hlt) as H4.
  set (i := JS.floorLog 1024 (Z.abs bytes)) in *.
  assert (Hsome : exists u, sizes !! Z.to_nat i = Some u).
  { apply lookup_lt_is_Some. simpl. lia. }
  destruct Hsome as [u Hu]. exists i, u.
  split; [lia|]. split; [done|]. split; [done|].
  unfold formatBytes. destruct (Z.eqb_spec bytes 0); [done|].
  cbv zeta. fold i. unfold index.
  destruct (Z.ltb_spec i 0); [lia|]. by rewrite Hu.
Qed.

Lemma formatBytes_within_table_witness :
  exists i u,
    sizes !! Z.to_nat i = Some u
    /\ formatBytes (-5242880)
       = JS.toFixed (JS.number (-5242880) / JS.number (1024 ^ i)) 2 +:+ " " +:+ u
    /\ formatBytes (-5242880) = "-5.00 MB".
Proof.
  destruct (formatBytes_within_table (-5242880)) as (i & u & _ & Hu & _ & Hfmt);
    [lia | simpl; lia |].
  exists i, u. split; [exact Hu|]. split; [exact Hfmt | reflexivity].
Defined.

(** X2: [formatDiff] always starts with a sign: a plus for a difference
    that is zero or positive, a minus for a negative one, followed in both
    cases by the rendering of the absolute value. *)
Theorem formatDiff_signed (diff : Z) :
  formatDiff diff
  = (if 0 <=? diff then "+" else "-") +:+ formatBytes (Z.abs diff).
Proof.
  unfold formatDiff. cbv zeta. destruct (Z.leb_spec 0 diff) as [Hd|Hd].
  - by rewrite Z.abs_eq.
  - rewrite Z.abs_neq by lia.
    replace diff with (- - diff) at 1 by lia.
    by rewrite formatBytes_opp by lia.
Qed.


(** ** File statistics, further *)

Lemma byteLength_le_fuel n : forall s,
  (List.length s <= n)%nat -> JS.byteLength s <= 3 * JS.length s.
Proof.
  unfold JS.length. induction n as [|n IH]; intros [|c r] Hn; simpl in *; try lia.
  assert (Hr := IH r ltac:(lia)).
  destruct (c <? 128)%N; [lia|]. destruct (c <? 2048)%N; [lia|].
  destruct (JS.isHighSurrogate c); [|lia].
  destruct r as [|d r']; [simpl; lia|].
  destruct (JS.isLowSurrogate d); [|lia].
  destruct n as [|n']; [simpl in Hn; lia|].
  assert (Hr' := IH r' ltac:(simpl in *; lia)). simpl in *. lia.
Qed.

(** X3: the byte size is at most three times the character count: a code
    unit never needs more than three bytes of UTF-8, a surrogate pair four
    for its two. *)
Theorem byte_size_at_most_triple (conteudo : JS.jsstring) (arquivo : string) :
  tamanhoArquivo (stats conteudo arquivo) <= 3 * caracteres (stats conteudo arquivo).
Proof. unfold stats. cbn. by apply (byteLength_le_fuel (List.length conteudo)). Qed.

Lemma split_length sep s :
  List.length (JS.split sep s)
  = S (List.length (List.filter (fun c => (c =? sep)%N) s)).
Proof.
  induction s as [|c r IH]; [done|]. cbn [JS.split List.filter].
  destruct (split_cons_inv sep r) as (l & ls & E). rewrite E in *.
  destruct (c =? sep)%N; simpl in *; lia.
Qed.

Lemma split_app_sep sep a b :
  JS.split sep (a ++ sep :: b) = JS.split sep a ++ JS.split sep b.
Proof.
  induction a as [|c a IH]; cbn [app JS.split].
  - by rewrite N.eqb_refl.
  - rewrite IH. destruct (c =? sep)%N; [done|].
    by destruct (split_cons_inv sep a) as (l & ls & ->).
Qed.

Lemma blank_nil : blank [] = true.
Proof. reflexivity. Qed.

(** X4: the total number of lines is one more than the number of line
    feeds in the text, so a text that ends with a line feed is counted with
    one more line, an empty and therefore blank one. *)
Theorem total_lines_count_line_feeds (conteudo : JS.jsstring) (arquivo : string) :
  totalLinhas (stats conteudo arquivo) = 1 + lineFeeds conteudo
  /\ totalLinhas (stats (conteudo ++ [10%N]) arquivo)
     = 1 + totalLinhas (stats conteudo arquivo)
  /\ linhasVazias (stats (conteudo ++ [10%N]) arquivo)
     = 1 + linhasVazias (stats conteudo arquivo)
  /\ linhasCodigo (stats (conteudo ++ [10%N]) arquivo)
     = linhasCodigo (stats conteudo arquivo).
Proof.
  unfold stats, lineFeeds. cbn [totalLinhas linhasVazias linhasCodigo].
  rewrite (split_app_sep 10 conteudo []). cbn [JS.split].
  rewrite List.filter_app, !length_app, split_length. cbn [List.filter].
  rewrite blank_nil. simpl. lia.
Qed.







Lemma Forall_split (P : N -> Prop) sep s :
  P sep -> Forall P s <-> Forall (Forall P) (JS.split sep s).
Proof.
  intros Hsep. induction s as [|c r IH]; cbn [JS.split].
  - split; [by repeat constructor | constructor].
  - destruct (split_cons_inv sep r) as (l & ls & E). rewrite E in *.
    destruct (N.eqb_spec c sep) as [->|_].
    + rewrite Forall_cons, IH. split; [by intros [_ ?]; constructor|].
      intros H. split; [done | by inversion H].
    + rewrite !Forall_cons in *. rewrite IH. tauto.
Qed.

Lemma filter_all_length {A} (p : A -> bool) (l : list A) :
  List.length (List.filter p l) = List.length l <-> Forall (fun x => p x = true) l.
Proof.
  induction l as [|x l IH]; cbn [List.filter]; [by split; [constructor|]|].
  pose proof (filter_length_le p l). rewrite Forall_cons.
  destruct (p x); simpl; [rewrite <- IH; lia|].
  split; [lia | by intros [? _]].
Qed.

(** X6: no line is counted as code exactly when the text consists of white
    space only (line feeds, carriage returns, blanks, tabs and the other
    characters [trim] strips); the empty text is the smallest case. *)
Theorem no_code_lines_iff_white (conteudo : JS.jsstring) (arquivo : string) :
  linhasCodigo (stats conteudo arquivo) = 0
  <-> Forall (fun c => JS.isWhiteSpace c = true) conteudo.
Proof.
  unfold stats. cbn [linhasCodigo].
  rewrite (Forall_split _ 10 conteudo) by reflexivity.
  pose proof (filter_length_le blank (JS.split 10 conteudo)).
  rewrite <- (Forall_iff (fun l => blank l = true)) by (intros l; apply blank_true_iff).
  rewrite <- filter_all_length. lia.
Qed.

(** ** Runs, further *)

(** X7: [analyzeFile] never throws: it answers a readable artifact with
    its statistics, after printing them, and an unreadable one with [null],
    after printing one warning; it changes nothing but the console. *)
Theorem analyzeFile_never_throws (host : Host) (arquivo : string) (s : State) :
  match readFileSync host arquivo with
  | Normal conteudo =>
      analyzeFile host arquivo s
      = (logs s (fileLines (stats conteudo arquivo)),
         Normal (Some (stats conteudo arquivo)))
  | Throw e =>
      analyzeFile host arquivo s = (logs s [warning arquivo e], Normal None)
  end.
Proof.
  destruct (readFileSync host arquivo) eqn:Hread.
  - by apply analyzeFile_readable.
  - by apply analyzeFile_unreadable.
Qed.


(** X9: a run whose unit is evaluated and whose artifact is read appends
    one result holding the elapsed time in milliseconds, the memory profile
    after the unit, its difference to the profile before, and the file
    statistics of the artifact; the module stays in the cache. *)
Theorem readable_run_appends_full_result
    (host : Host) (label filePath key : string) (s : State) (conteudo : JS.jsstring) :
  access host filePath = Normal tt ->
  require_resolve host (path_resolve host filePath) = Normal key ->
  u_error (unit_of host key (timesEvaluated key s)) = None ->
  readFileSync host filePath = Normal conteudo ->
  exists s',
    let u := unit_of host key (timesEvaluated key s) in
    runBenchmark host label filePath s = (s', Normal tt)
    /\ results s'
       = results s
         ++ [ {| name := label;
                 executionTime :=
                   JS.double (JS.numberOfBigInt (u_elapsed u) / JS.number 1000000)%Qc;
                 memory := u_memory u;
                 memoryDiff :=
                   {| rss := rss (u_memory u) - rss (memoryUsage s);
                      heapTotal := heapTotal (u_memory u) - heapTotal (memoryUsage s);
                      heapUsed := heapUsed (u_memory u) - heapUsed (memoryUsage s) |};
                 fileStats := Some (stats conteudo filePath) |} ]
    /\ key ∈ require_cache s'
    /\ evaluated s'
       = evaluated s ++ key :: loadedBy (u_requires u) ({[key]} ∪ require_cache s).
Proof.
  intros Hacc Hkey Herr Hread.
  eexists. cbv zeta. split.
  { eapply runBenchmark_unit_returns; [done..|]. by apply analyzeFile_readable. }
  cbn [set_results results logs set_console measuredState require_cache evaluated].
  split; [|split].
  - unfold measured. by rewrite Z.add_simpl_l.
  - rewrite require_cache_loaded.
    apply cacheAfter_mono, elem_of_union_l, elem_of_singleton. reflexivity.
  - apply evaluated_loaded.
Qed.

Lemma readable_run_appends_full_result_witness :
  exists s',
    runBenchmark demoHost "POO" "./poo.js" (newProcess 0 idle) = (s', Normal tt)
    /\ List.map (fun r => (name r, JS.toFixed (executionTime r) 2,
                           linhasCodigo <$> fileStats r))
         (results s')
       = [("POO", "2.50", Some 2)]
    /\ evaluated s' = ["/work/poo.js"].
Proof.
  destruct (readable_run_appends_full_result demoHost "POO" "./poo.js" "/work/poo.js"
              (newProcess 0 idle) _ eq_refl eq_refl eq_refl eq_refl)
    as (s' & Hrun & Hres & _ & Hev).
  exists s'. split; [exact Hrun|]. split; [rewrite Hres; by vm_compute | exact Hev].
Defined.







(** ** The summary, further *)

Lemma showSummary_prints s :
  showSummary s = (logs s (summaryOf (results s)), Normal tt).
Proof.
  destruct (results s) as [|r rs] eqn:Hrs.
  - unfold showSummary. erewrite bind_run; [|apply gets_run]. rewrite Hrs.
    by rewrite bool_decide_eq_true_2.
  - by apply showSummary_run.
Qed.

(** X12: [showSummary] never throws and only prints: results, module
    cache, clock and memory readings are as before, and a second call
    prints the same lines again. *)
Theorem showSummary_only_prints (s : State) :
  exists lines,
    showSummary s = (logs s lines, Normal tt)
    /\ (showSummary ;; showSummary) s = (logs s (lines ++ lines), Normal tt)
    /\ results (logs s lines) = results s
    /\ require_cache (logs s lines) = require_cache s
    /\ hrtime (logs s lines) = hrtime s
    /\ memoryUsage (logs s lines) = memoryUsage s.
Proof.
  exists (summaryOf (results s)). split; [apply showSummary_prints|].
  split; [|done].
  erewrite bind_run; [|apply showSummary_prints].
  by rewrite showSummary_prints, logs_logs.
Qed.

Section UniqueMinimum.

Context {A : Type} (ltb : A -> A -> bool).

Hypothesis ltb_asym : forall a b, ltb a b = true -> ltb b a = false.

Lemma fold_pick_elem xs : forall x, fold_left (pick ltb) xs x ∈ x :: xs.
Proof.
  induction xs as [|y xs IH]; intros x; simpl; [by left|].
  specialize (IH (pick ltb x y)). unfold pick in *.
  apply elem_of_cons in IH as [IH|IH]; [|by do 2 right].
  rewrite IH. destruct (ltb x y); [by left | right; by left].
Qed.

Lemma fold_pick_keeps f post :
  Forall (fun r => ltb f r = true) post -> fold_left (pick ltb) post f = f.
Proof.
  induction 1 as [|y post Hy _ IH]; simpl; [done|].
  unfold pick at 2. by rewrite Hy.
Qed.

Lemma firstMinimum_elem rs m : firstMinimum ltb rs = Some m -> m ∈ rs.
Proof.
  revert m. induction rs as [|r rs IH]; intros m; simpl; [done|].
  destruct (firstMinimum ltb rs) as [m'|].
  - destruct (ltb m' r); intros [= <-]; [right; by apply IH | by left].
  - intros [= <-]. by left.
Qed.

(** An entry strictly below all the others is what the reducer selects and
    also the first minimum. *)
Lemma unique_minimum_selected pre f post :
  Forall (fun r => ltb f r = true) pre ->
  Forall (fun r => ltb f r = true) post ->
  JS.reduce (pick ltb) (pre ++ f :: post) = Some f
  /\ firstMinimum ltb (pre ++ f :: post) = Some f.
Proof.
  intros Hpre Hpost. split.
  - destruct pre as [|p pre]; simpl; f_equal.
    + by apply fold_pick_keeps.
    + rewrite fold_left_app. simpl.
      pose proof (fold_pick_elem pre p) as Hin.
      assert (Hacc : ltb f (fold_left (pick ltb) pre p) = true).
      { by apply (proj1 (Forall_forall _ _) Hpre). }
      unfold pick at 2. rewrite (ltb_asym _ _ Hacc).
      by apply fold_pick_keeps.
  - assert (Hf : firstMinimum ltb (f :: post) = Some f).
    { simpl. destruct (firstMinimum ltb post) as [m|] eqn:Hm; [|done].
      apply firstMinimum_elem in Hm.
      by rewrite (ltb_asym _ _ (proj1 (Forall_forall _ _) Hpost m Hm)). }
    induction Hpre as [|p pre Hp _ IH]; [done|].
    cbn [app firstMinimum]. by rewrite IH, Hp.
Qed.

End UniqueMinimum.

Lemma timeLt_asym a b : timeLt a b = true -> timeLt b a = false.
Proof.
  unfold timeLt. rewrite bool_decide_eq_true, bool_decide_eq_false.
  intros H. apply Qcle_not_lt. by apply Qclt_le_weak.
Qed.

Lemma heapLt_asym a b : heapLt a b = true -> heapLt b a = false.
Proof. unfold heapLt. rewrite bool_decide_eq_true, bool_decide_eq_false. lia. Qed.

(** X13: when one entry is strictly faster than every other entry, the
    summary's reducer selects it, wherever it stands in the list, and it is
    also the first minimum; likewise for the entry with strictly the least
    heap in use. Without ties the code and the first-minimum rule agree. *)
Theorem unique_winner_is_selected
    (pre post pre' post' : list Result) (fastest leanest : Result) :
  pre ++ fastest :: post = pre' ++ leanest :: post' ->
  Forall (fun r => (executionTime fastest < executionTime r)%Qc) (pre ++ post) ->
  Forall (fun r => heapUsed (memory leanest) < heapUsed (memory r)) (pre' ++ post') ->
  JS.reduce faster (pre ++ fastest :: post) = Some fastest
  /\ firstMinimum timeLt (pre ++ fastest :: post) = Some fastest
  /\ JS.reduce leaner (pre ++ fastest :: post) = Some leanest
  /\ firstMinimum heapLt (pre ++ fastest :: post) = Some leanest.
Proof.
  intros Hsame [Hpre Hpost]%Forall_app [Hpre' Hpost']%Forall_app.
  assert (Ht : forall l, Forall (fun r => (executionTime fastest < executionTime r)%Qc) l ->
                         Forall (fun r => timeLt fastest r = true) l).
  { intros l Hl. eapply Forall_impl; [exact Hl|].
    intros r Hr. by apply bool_decide_eq_true. }
  assert (Hh : forall l, Forall (fun r => heapUsed (memory leanest) < heapUsed (memory r)) l ->
                         Forall (fun r => heapLt leanest r = true) l).
  { intros l Hl. eapply Forall_impl; [exact Hl|].
    intros r Hr. by apply bool_decide_eq_true. }
  destruct (unique_minimum_selected timeLt timeLt_asym pre fastest post) as [H1 H2];
    [by apply Ht..|].
  destruct (unique_minimum_selected heapLt heapLt_asym pre' leanest post') as [H3 H4];
    [by apply Hh..|].
  rewrite Hsame at 3 4. done.
Qed.

Lemma unique_winner_is_selected_witness :
  JS.reduce faster sample = Some (entry "B" 50 2000)
  /\ firstMinimum timeLt sample = Some (entry "B" 50 2000)
  /\ JS.reduce leaner sample = Some (entry "A" 100 1000)
  /\ firstMinimum heapLt sample = Some (entry "A" 100 1000).
Proof.
  apply (unique_winner_is_selected [entry "A" 100 1000] [] [] [entry "B" 50 2000]
           (entry "B" 50 2000) (entry "A" 100 1000)).
  - reflexivity.
  - repeat constructor.
  - repeat constructor.
Defined.


(** ** The default driver *)

(** Which runs append a result. *)
Lemma runBenchmark_succeeds host label filePath s :
  exists s' c,
    runBenchmark host label filePath s = (s', c)
    /\ List.map name (results s')
       = List.map name (results s)
         ++ (if succeeds host filePath s then [label] else [])
    /\ (c = Normal tt
        \/ exists key n raised,
             u_error (unit_of host key n) = Some Diverges
             \/ u_error (unit_of host key n) = Some (Raised (Unreadable raised))).
Proof.
  unfold succeeds.
  destruct (access host filePath) as [[]|e] eqn:Hacc.
  2:{ eexists _, _. split; [by apply runBenchmark_access_fails|].
      split; [by rewrite app_nil_r | by left]. }
  destruct (require_resolve host (path_resolve host filePath)) as [key|e] eqn:Hkey.
  2:{ eexists _, _. split; [by apply runBenchmark_resolve_fails|].
      split; [by rewrite app_nil_r | by left]. }
  destruct (u_error (unit_of host key (timesEvaluated key s))) as [[[e|raised]|]|] eqn:Herr.
  - eexists _, _. split; [by eapply runBenchmark_unit_raises|].
    split; [by rewrite app_nil_r | by left].
  - eexists _, _. split; [by eapply runBenchmark_unit_unreadable|].
    split; [by rewrite app_nil_r|]. right. eexists key, _, raised. by right.
  - eexists _, _. split; [by eapply runBenchmark_unit_diverges|].
    split; [by rewrite app_nil_r|]. right. eexists key, _, thrownNull. by left.
  - destruct (analyzeFile_returns host filePath (measuredState host label key s))
      as (s3 & fs & Hfs & Hres & _).
    eexists _, _. split; [by eapply runBenchmark_unit_returns|].
    split; [|by left]. cbn [set_results results]. by rewrite Hres, map_app.
Qed.

(** X14: on a host whose units end, and throw only what has a message to
    read, the default driver started on a fresh runner returns normally:
    both runs return, the results it leaves are exactly those of the runs
    that succeeded, named Estruturado and POO in this order, and it ends by
    printing the summary of these results and the closing line. *)
Theorem default_driver_completes (host : Host) (s : State) :
  results s = [] ->
  (forall key n raised,
     u_error (unit_of host key n) <> Some Diverges
     /\ u_error (unit_of host key n) <> Some (Raised (Unreadable raised))) ->
  exists s1 s2,
    runBenchmark host "Estruturado" "./estruturado.js"
      (logs s [Log (" Iniciando comparação entre paradigmas de programação..." +:+ JS.LF)])
    = (s1, Normal tt)
    /\ (pause 100 ;; runBenchmark host "POO" "./poo.js") s1 = (s2, Normal tt)
    /\ exemploDeUso host s
       = (logs s2 (summaryOf (results s2) ++ [Log (JS.LF +:+ " Análise concluída!")]),
          Normal tt)
    /\ List.map name (results s2)
       = (if succeeds host "./estruturado.js" s then ["Estruturado"] else [])
         ++ (if succeeds host "./poo.js" s1 then ["POO"] else []).
Proof.
  intros Hfresh Hgood.
  assert (Hnormal : forall c : Completion Escape unit,
            (c = Normal tt
             \/ exists key n raised,
                  u_error (unit_of host key n) = Some Diverges
                  \/ u_error (unit_of host key n) = Some (Raised (Unreadable raised))) ->
            c = Normal tt).
  { intros c [Hc|(key & n & raised & [Hc|Hc])]; [done|..];
      destruct (Hgood key n raised) as [H1 H2]; contradiction. }
  destruct (runBenchmark_succeeds host "Estruturado" "./estruturado.js"
              (logs s [Log (" Iniciando comparação entre paradigmas de programação..."
                            +:+ JS.LF)]))
    as (s1 & c1 & H1 & R1 & N1).
  apply Hnormal in N1 as ->.
  destruct (runBenchmark_succeeds host "POO" "./poo.js" (pause 100 s1).1)
    as (s2 & c2 & H2 & R2 & N2).
  apply Hnormal in N2 as ->.
  exists s1, s2. split; [done|]. split.
  { erewrite bind_run; [exact H2 | reflexivity]. }
  split.
  - unfold exemploDeUso.
    step ltac:(apply emit_run). step ltac:(exact H1).
    step ltac:(apply modify_run). step ltac:(exact H2).
    step ltac:(apply showSummary_prints).
    by rewrite emit_run, logs_logs.
  - rewrite R2. cbn [pause modify fst results]. rewrite R1.
    cbn [logs set_console results]. by rewrite Hfresh.
Qed.

Lemma default_driver_completes_witness :
  exists s',
    exemploDeUso demoHost (newProcess 0 idle) = (s', Normal tt)
    /\ List.map name (results s') = ["POO"].
Proof.
  destruct (default_driver_completes demoHost (newProcess 0 idle) eq_refl)
    as (s1 & s2 & _ & _ & Hrun & Hnames).
  - intros key n raised. simpl.
    destruct (String.eqb key "/work/broken.js"); split; discriminate.
  - eexists. split; [exact Hrun|]. exact Hnames.
Defined.

(** * The benchmarked units: CSV handling *)

Lemma split_none sep s : sep ∉ s -> JS.split sep s = [s].
Proof.
  induction s as [|c r IH]; [done|]. intros Hnot. cbn [JS.split].
  destruct (N.eqb_spec c sep) as [->|_].
  - exfalso. apply Hnot. by left.
  - rewrite IH; [done|]. intros ?. apply Hnot. by right.
Qed.

Lemma split_two sep s :
  sep ∈ s -> exists a b rest, JS.split sep s = a :: b :: rest.
Proof.
  intros Hin. apply list_elem_of_split in Hin as (l1 & l2 & ->).
  rewrite split_app_sep.
  destruct (split_cons_inv sep l1) as (a & [|a' as'] & ->),
           (split_cons_inv sep l2) as (b & bs & ->); by eexists _, _, _.
Qed.

Lemma split_join sep rows :
  Forall (fun row => sep ∉ row) rows -> rows <> [] ->
  JS.split sep (join sep rows) = rows.
Proof.
  induction 1 as [|row rows Hrow Hrows IH]; [done|]. intros _.
  destruct rows as [|row' rows]; [by apply split_none|].
  rewrite join_cons, split_app_sep, IH by done. by rewrite split_none.
Qed.

Lemma mapThrowing_normal {A B} (f : A -> Completion JsError B) (g : A -> B) arr :
  Forall (fun x => f x = Normal (g x)) arr ->
  CSV.mapThrowing f arr = Normal (List.map g arr).
Proof. induction 1 as [|x xs Hx _ IH]; simpl; [done|]. by rewrite Hx, IH. Qed.

Lemma mapThrowing_throw {A B} (f : A -> Completion JsError B) arr :
  Exists (fun x => exists e, f x = Throw e) arr ->
  exists e, CSV.mapThrowing f arr = Throw e.
Proof.
  induction 1 as [x xs [e Hx]|x xs _ [e IH]]; simpl.
  - rewrite Hx. by eexists.
  - destruct (f x); [|by eexists]. rewrite IH. by eexists.
Qed.

Lemma converterLinha_comma toNumber l :
  44%N ∈ l -> CSV.converterLinha toNumber l = Normal (registro toNumber l).
Proof.
  intros Hin. destruct (split_two 44 l Hin) as (a & b & rest & E).
  unfold CSV.converterLinha, registro. by rewrite E.
Qed.

Lemma converterLinha_no_comma toNumber l :
  44%N ∉ l -> exists e, CSV.converterLinha toNumber l = Throw e.
Proof.
  intros Hnot. unfold CSV.converterLinha. rewrite split_none by done. by eexists.
Qed.

(** X15: what [lerCSV] makes of a text: the first line is dropped, blank
    lines are skipped, and every other line gives one record, its id read
    from the text before the first comma and its texto the trimmed text
    between the first and the second comma; when one of these lines has no
    comma the call throws instead of returning records. *)
Theorem lerCSV_needs_a_comma (toNumber : JS.jsstring -> CSV.number) (conteudo : JS.jsstring) :
  let linhas := List.filter (fun l => negb (blank l)) (drop 1 (JS.split 10 conteudo)) in
  match CSV.converterParaObjetos toNumber (CSV.linhasDe conteudo) with
  | Normal dados =>
      Forall (fun l => 44%N ∈ l) linhas
      /\ dados = List.map (registro toNumber) linhas
  | Throw e => Exists (fun l => 44%N ∉ l) linhas
  end.
Proof.
  cbv zeta. unfold CSV.converterParaObjetos, CSV.linhasDe.
  set (linhas := List.filter _ _).
  destruct (decide (Forall (fun l => 44%N ∈ l) linhas)) as [Hall|Hsome].
  - rewrite (mapThrowing_normal _ (registro toNumber)); [done|].
    eapply Forall_impl; [exact Hall|]. intros l. apply converterLinha_comma.
  - apply not_Forall_Exists in Hsome; [|intros l; apply _].
    destruct (mapThrowing_throw (CSV.converterLinha toNumber) linhas) as [e ->]; [|done].
    eapply Exists_impl; [exact Hsome|]. intros l. apply converterLinha_no_comma.
Qed.

Lemma comma_not_blank l : 44%N ∈ l -> blank l = false.
Proof.
  intros Hin. apply not_true_is_false. rewrite blank_true_iff, Forall_forall.
  intros Hws. by specialize (Hws _ Hin).
Qed.

Lemma linhasDe_cabecalho corpo :
  CSV.linhasDe (CSV.cabecalho ++ corpo) = JS.split 10 corpo.
Proof.
  unfold CSV.linhasDe.
  change (CSV.cabecalho ++ corpo)
    with ([105; 100; 44; 116; 101; 120; 116; 111]%N ++ 10%N :: corpo).
  by rewrite split_app_sep.
Qed.

(** X16: reading back what [salvarCSV] writes gives the records that were
    saved, for records whose texto holds neither comma nor line feed and
    is already trimmed, and whose id is rendered without comma or line
    feed and read back as the same number. *)
Theorem salvar_then_ler
    (toNumber : JS.jsstring -> CSV.number) (numberToString : CSV.number -> JS.jsstring)
    (dados : list CSV.Linha) :
  Forall (fun d => toNumber (numberToString (CSV.id d)) = CSV.id d
                   /\ (44%N ∉ numberToString (CSV.id d))
                   /\ (10%N ∉ numberToString (CSV.id d))
                   /\ (44%N ∉ CSV.texto d)
                   /\ (10%N ∉ CSV.texto d)
                   /\ JS.trim (CSV.texto d) = CSV.texto d) dados ->
  CSV.converterParaObjetos toNumber (CSV.linhasDe (CSV.conteudoCSV numberToString dados))
  = Normal dados.
Proof.
  intros Hok. unfold CSV.converterParaObjetos, CSV.conteudoCSV.
  rewrite linhasDe_cabecalho.
  set (row := fun d => numberToString (CSV.id d) ++ 44%N :: CSV.texto d).
  destruct dados as [|d0 dados0] eqn:Hdados; [reflexivity|]. rewrite <- Hdados in *.
  rewrite split_join.
  2:{ apply Forall_fmap. eapply Forall_impl; [exact Hok|].
      intros d (_ & _ & Hn & _ & Ht & _). unfold row. simpl.
      rewrite elem_of_app, elem_of_cons. intros [?|[?|?]]; done. }
  2:{ by rewrite Hdados. }
  assert (Hfilter : List.filter (fun l => negb (blank l)) (List.map row dados)
                    = List.map row dados).
  { clear. induction dados as [|d dados IH]; [done|]. cbn [List.map List.filter].
    rewrite comma_not_blank, IH; [done|].
    unfold row. rewrite elem_of_app, elem_of_cons. by right; left. }
  rewrite Hfilter. clear Hfilter Hdados.
  induction Hok as [|d dados (Hid & Hn & _ & Ht & _ & Htrim) _ IH]; [done|].
  cbn [List.map CSV.mapThrowing]. rewrite IH.
  unfold CSV.converterLinha, row at 1.
  rewrite split_app_sep, !split_none by done. cbn [app].
  rewrite Hid, Htrim. by destruct d.
Qed.

Lemma salvar_then_ler_witness :
  CSV.conteudoCSV CSV.decimalToString doisRegistros
  = [105; 100; 44; 116; 101; 120; 116; 111; 10;
     49; 44; 79; 108; 225; 32; 109; 117; 110; 100; 111; 10;
     49; 50; 44; 74; 83]%N
  /\ CSV.converterParaObjetos CSV.decimalToNumber
       (CSV.linhasDe (CSV.conteudoCSV CSV.decimalToString doisRegistros))
     = Normal doisRegistros.
Proof.
  split; [by vm_compute|].
  apply (salvar_then_ler CSV.decimalToNumber CSV.decimalToString doisRegistros).
  repeat constructor; try (by vm_compute); try (apply Qc_is_canon; reflexivity);
    intros H; vm_compute in H; repeat (apply elem_of_cons in H as [H|H]; [done|]);
    by apply elem_of_nil in H.
Defined.

Lemma contarPalavras_from dados : forall total,
  fold_left (fun total item =>
               total + Z.of_nat (List.length (JS.split 32 (CSV.texto item))))
            dados total
  = total + CSV.contarLinhas dados + CSV.espacos dados.
Proof.
  unfold CSV.contarLinhas, CSV.espacos.
  induction dados as [|d dados IH]; intros total; cbn [fold_left]; [simpl; lia|].
  rewrite IH, split_length. cbn [flat_map List.length].
  rewrite List.filter_app, length_app. lia.
Qed.

(** X17: [contarPalavras] counts one word per record plus one per blank in
    the texts: an empty texto counts as one word, and two blanks in a row
    count an empty word between them. *)
Theorem contarPalavras_counts_blanks (dados : list CSV.Linha) :
  CSV.contarPalavras dados = CSV.contarLinhas dados + CSV.espacos dados
  /\ CSV.contarLinhas dados <= CSV.contarPalavras dados.
Proof.
  unfold CSV.contarPalavras. rewrite contarPalavras_from.
  split; [lia|]. unfold CSV.espacos. lia.
Qed.

Lemma strictNe_self i : CSV.strictNe i i = match i with CSV.NaN => true | _ => false end.
Proof.
  destruct i as [|q|b]; simpl; [done| |].
  - by rewrite bool_decide_eq_true_2.
  - by destruct b.
Qed.

Lemma removerPorId_NaN dados : CSV.removerPorId dados CSV.NaN = dados.
Proof.
  unfold CSV.removerPorId. induction dados as [|d dados IH]; [done|].
  cbn [List.filter]. rewrite IH. by destruct (CSV.id d).
Qed.

(** X18: removing the id of a line that was just added removes that line
    again together with every earlier line of the same id, so the earlier
    records come back exactly when none of them had this id; the one
    exception is the id NaN, which removes nothing, not even the line just
    added. *)
Theorem adicionar_then_remover
    (dados : list CSV.Linha) (i : CSV.number) (t : JS.jsstring) :
  CSV.removerPorId (CSV.adicionarLinha dados i t) i
  = match i with
    | CSV.NaN => CSV.adicionarLinha dados i t
    | _ => CSV.removerPorId dados i
    end
  /\ (CSV.removerPorId dados i = dados
      <-> Forall (fun d => CSV.strictNe (CSV.id d) i = true) dados).
Proof.
  split.
  - unfold CSV.removerPorId, CSV.adicionarLinha.
    rewrite List.filter_app. cbn [List.filter CSV.id].
    rewrite strictNe_self. destruct i as [|q|b]; [|by rewrite app_nil_r..].
    f_equal. apply removerPorId_NaN.
  - unfold CSV.removerPorId. rewrite <- filter_all_length. split; [by intros ->|].
    intros Hlen. induction dados as [|d dados IH]; [done|].
    cbn [List.filter] in *.
    pose proof (filter_length_le (fun d => CSV.strictNe (CSV.id d) i) dados).
    destruct (CSV.strictNe (CSV.id d) i); simpl in Hlen; [|lia].
    f_equal. apply IH. lia.
Qed.

(** X19: [removerPorId] keeps exactly the records whose id differs from
    the given one, in their order: no record it keeps has the given id, and
    every record of another id is kept; so a second removal changes
    nothing, and a record whose own id is NaN is never removed. *)
Theorem removerPorId_removes_all (dados : list CSV.Linha) (i : CSV.number) :
  sublist (CSV.removerPorId dados i) dados
  /\ Forall (fun d => CSV.strictNe (CSV.id d) i = true) (CSV.removerPorId dados i)
  /\ (forall d, d ∈ CSV.removerPorId dados i
                <-> d ∈ dados /\ CSV.strictNe (CSV.id d) i = true)
  /\ (forall q d, i = CSV.Finite q -> d ∈ CSV.removerPorId dados i ->
        CSV.id d <> CSV.Finite q)
  /\ CSV.removerPorId (CSV.removerPorId dados i) i = CSV.removerPorId dados i
  /\ CSV.contarLinhas (CSV.removerPorId dados i) <= CSV.contarLinhas dados
  /\ List.filter (fun d => match CSV.id d with CSV.NaN => true | _ => false end)
       (CSV.removerPorId dados i)
     = List.filter (fun d => match CSV.id d with CSV.NaN => true | _ => false end) dados.
Proof.
  assert (Hin : forall d, d ∈ CSV.removerPorId dados i
                          <-> d ∈ dados /\ CSV.strictNe (CSV.id d) i = true).
  { intros d. unfold CSV.removerPorId.
    induction dados as [|x dados IH]; cbn [List.filter].
    - split; [by intros ?%elem_of_nil | by intros [?%elem_of_nil _]].
    - destruct (CSV.strictNe (CSV.id x) i) eqn:E; rewrite ?elem_of_cons, IH.
      + split; [intros [->|[? ?]]; tauto | intros [[->|?] ?]; tauto].
      + split; [tauto | intros [[->|?] ?]; [congruence | tauto]]. }
  split; [|split; [|split; [exact Hin|split; [|split; [|split]]]]].
  - unfold CSV.removerPorId. clear.
    induction dados as [|d dados IH]; [constructor|]. cbn [List.filter].
    destruct (CSV.strictNe (CSV.id d) i); [by apply sublist_skip | by apply sublist_cons].
  - apply Forall_forall. intros d Hd. by apply Hin in Hd as [_ ?].
  - intros q d -> Hd Hid. apply Hin in Hd as [_ Hne].
    rewrite Hid, strictNe_self in Hne. done.
  - unfold CSV.removerPorId.
    clear. induction dados as [|d dados IH]; [done|]. cbn [List.filter].
    destruct (CSV.strictNe (CSV.id d) i) eqn:E; [|done].
    cbn [List.filter]. by rewrite E, IH.
  - unfold CSV.removerPorId, CSV.contarLinhas.
    pose proof (filter_length_le (fun d => CSV.strictNe (CSV.id d) i) dados). lia.
  - unfold CSV.removerPorId.
    clear. induction dados as [|d dados IH]; [done|]. cbn [List.filter].
    destruct (CSV.id d) eqn:E; cbn [CSV.strictNe].
    + cbn [List.filter]. by rewrite E, IH.
    + destruct i; cbn [negb]; try (cbn [List.filter]; by rewrite E, IH).
      destruct (bool_decide (q = q0)); cbn [negb List.filter]; by rewrite ?E, IH.
    + destruct i; cbn [negb]; try (cbn [List.filter]; by rewrite E, IH).
      destruct (Bool.eqb negative negative0); cbn [negb List.filter]; by rewrite ?E, IH.
Qed.

(** [lerCSV] reads the file and converts its lines; neither a failed read
    nor a failed conversion is caught. *)
Lemma lerCSV_run toNumber host caminho s :
  CSV.lerCSV toNumber host caminho s
  = (s, match readFileSync host caminho with
        | Normal conteudo =>
            match CSV.converterParaObjetos toNumber (CSV.linhasDe conteudo) with
            | Normal dados => Normal dados
            | Throw e => Throw (Raised (Readable e))
            end
        | Throw e => Throw (Raised (Readable e))
        end).
Proof.
  unfold CSV.lerCSV. destruct (readFileSync host caminho) as [conteudo|e].
  - by erewrite bind_run; [|reflexivity].
  - by erewrite bind_throw; [|reflexivity].
Qed.
